(** * Chain authorization (core/node/auth/auth_impl.go)

    A shallow embedding of the on-chain authorization oracle: the
    serialization of linked wallets, the entitlement evaluator, the
    decision pipeline [checkEntitlement] with its caches, and the receipt
    verifier [VerifyReceipt].

    Go values are embedded as follows.
    - [common.Address] ([20]byte) is a vector of 20 bytes, [common.Hash] a
      vector of 32 bytes; byte slices are lists of bytes; Go strings are
      [string]s of 8-bit characters; [uint64] and [big.Int] values are
      integers, with the wrap-around of [uint64] written out.
    - A Go function returning [(T, error)] that always pairs a non-nil
      error with the zero value of [T] returns a [Result T]:
      [Fail e] stands for [(zero, e)] and [Ok v] for [(v, nil)].
    - Calls to the collaborators (space contract, rule evaluator, wallet
      link contract) are answered by the functions stored in the
      [chainAuth] record; every such call, every cache bust and every
      metric increment of the decision pipeline is appended to the
      [history] of the [State], so that "this call was not made" is a
      statement about the final state.
    - The goroutines of the membership probe are run one after the other,
      in an order the model leaves open, and fill the two channels; the
      receive loops read the channels as lists.

    Logging, the context with its timeout and cancellation, and the
    single-flight of the cache are left out. *)

From Stdlib Require Import List String Ascii ZArith NArith Lia Bool Permutation.
From Stdlib.Strings Require Import Byte.
Set Warnings "-stdlib-vector".
From Stdlib Require Vector.
Import ListNotations.

Local Open Scope string_scope.
Local Open Scope list_scope.

(** ** Bytes, addresses and hashes *)

Definition FixedBytes (n : nat) : Type := Vector.t byte n.

Definition AddressLength : nat := 20.
Definition HashLength : nat := 32.

Definition Address : Type := FixedBytes AddressLength.
Definition Hash : Type := FixedBytes HashLength.

Definition fixedBytes {n : nat} (a : FixedBytes n) : list byte := Vector.to_list a.

(** The first [n] bytes of [l], zero-filled when [l] is shorter. *)
Fixpoint fill (n : nat) (l : list byte) : FixedBytes n :=
  match n with
  | O => Vector.nil byte
  | S n' =>
      match l with
      | [] => Vector.cons byte x00 n' (fill n' [])
      | b :: l' => Vector.cons byte b n' (fill n' l')
      end
  end.

(** [a.SetBytes(b)]: when [b] is longer than the array it is cropped from
    the left; it is copied right-aligned into the zero array. *)
Definition SetBytes (n : nat) (b : list byte) : FixedBytes n :=
  let b := if (n <? List.length b)%nat then skipn (List.length b - n) b else b in
  fill n (repeat x00 (n - List.length b) ++ b).

Definition BytesToAddress (b : list byte) : Address := SetBytes AddressLength b.
Definition BytesToHash (b : list byte) : Hash := SetBytes HashLength b.

Fixpoint bytes_eqb (a b : list byte) : bool :=
  match a, b with
  | [], [] => true
  | x :: a', y :: b' => Byte.eqb x y && bytes_eqb a' b'
  | _, _ => false
  end.

(** [bytes.Equal]: a nil slice and an empty slice are both the empty list. *)
Definition bytes_Equal (a b : list byte) : bool := bytes_eqb a b.

(** [==] on arrays of bytes. *)
Definition fixed_eqb {n : nat} (a b : FixedBytes n) : bool :=
  bytes_eqb (fixedBytes a) (fixedBytes b).

Definition Address_eqb (a b : Address) : bool := fixed_eqb a b.

Definition byte_of_N (x : N) : byte :=
  match Byte.of_N x with
  | Some b => b
  | None => x00
  end.

(** ** Hexadecimal text (encoding/hex and go-ethereum's common package) *)

Definition hextable : string := "0123456789abcdef".

Definition hexdigit (v : N) : ascii :=
  match String.get (N.to_nat v) hextable with
  | Some c => c
  | None => "0"%char
  end.

(** [hex.Encode]: two lower-case digits per byte. *)
Fixpoint hexEncode (src : list byte) : string :=
  match src with
  | [] => EmptyString
  | v :: rest =>
      String (hexdigit (N.shiftr (Byte.to_N v) 4))
        (String (hexdigit (N.land (Byte.to_N v) 15)) (hexEncode rest))
  end.

(** [reverseHexTable]: the value of a digit of either case, 0xff for any
    other character. *)
Definition fromHexChar (c : ascii) : N :=
  let n := N_of_ascii c in
  if (48 <=? n)%N && (n <=? 57)%N then (n - 48)%N
  else if (97 <=? n)%N && (n <=? 102)%N then (n - 97 + 10)%N
  else if (65 <=? n)%N && (n <=? 70)%N then (n - 65 + 10)%N
  else 255%N.

(** [Hex2Bytes]: [hex.DecodeString] with its error dropped, that is the
    bytes decoded before the first invalid character (or before a trailing
    odd character). *)
Fixpoint Hex2Bytes (str : string) : list byte :=
  match str with
  | String p (String q rest) =>
      let a := fromHexChar p in
      let b := fromHexChar q in
      if (15 <? a)%N then []
      else if (15 <? b)%N then []
      else byte_of_N (N.lor (N.shiftl a 4) b) :: Hex2Bytes rest
  | _ => []
  end.

Definition has0xPrefix (str : string) : bool :=
  match str with
  | String c0 (String c1 _) =>
      Ascii.eqb c0 "0" && (Ascii.eqb c1 "x" || Ascii.eqb c1 "X")
  | _ => false
  end.

Definition FromHex (s : string) : list byte :=
  let s := if has0xPrefix s then String.substring 2 (String.length s - 2) s else s in
  let s := if Nat.odd (String.length s) then String "0" s else s in
  Hex2Bytes s.

Definition HexToAddress (s : string) : Address := BytesToAddress (FromHex s).

(** ** Errors *)

(** Modelled from the spec: the protocol's [Err] codes are not among the
    sources; section 7 of the spec gives the taxonomy used by this file
    ([INTERNAL], [RESOURCE_EXHAUSTED], [PERMISSION_DENIED],
    [DOWNSTREAM_NETWORK_ERROR], [CANNOT_CHECK_ENTITLEMENTS]); [Err_UNKNOWN]
    stands for an error wrapped without a code. *)
Inductive Err : Type :=
| Err_UNKNOWN
| Err_INTERNAL
| Err_RESOURCE_EXHAUSTED
| Err_PERMISSION_DENIED
| Err_DOWNSTREAM_NETWORK_ERROR
| Err_CANNOT_CHECK_ENTITLEMENTS.

(** Go [error] values: the sentinel [ethereum.NotFound], any other error
    of a collaborator, the two-error wrap [fmt.Errorf("%w; %w", e1, e2)],
    and the node's own errors with their code, message and the function
    and tag names attached to them: [River] is built by [RiverError],
    [Wrapped] by [AsRiverError] around another error. *)
Inductive error : Type :=
| NotFound
| External (msg : string)
| Errorf2 (e1 e2 : error)
| River (code : Err) (msg : string) (notes : list string)
| Wrapped (code : Err) (msg : string) (notes : list string) (base : error).

(** [RiverError(code, msg, tags...)]; the tag values are not kept. *)
Definition RiverError (code : Err) (msg : string) : error := River code msg [].

(** Modelled from the spec: [AsRiverError] of core/node/base is not among
    the sources.  The spec has errors "wrapped with operation name and
    relevant tags" and names the code each wrap surfaces
    ("Other RPC errors -> DOWNSTREAM_NETWORK_ERROR", "return
    CANNOT_CHECK_ENTITLEMENTS with their concatenation"): the wrap carries
    the given code, or [Err_UNKNOWN] when none is given. *)
Definition AsRiverError (err : error) (defaultCode : option Err) : error :=
  Wrapped (match defaultCode with Some c => c | None => Err_UNKNOWN end)
          EmptyString [] err.

Definition addNote (name : string) (e : error) : error :=
  match e with
  | River c m notes => River c m (notes ++ [name])
  | Wrapped c m notes b => Wrapped c m (notes ++ [name]) b
  | _ => e
  end.

(** [.Func(name)], [.Tag(name, value)], [.Message(msg)] and [.LogError(log)]
    of the node's errors. *)
Definition Func (name : string) (e : error) : error := addNote name e.

Definition Tag (name : string) (e : error) : error := addNote name e.

Definition Message (msg : string) (e : error) : error :=
  match e with
  | River c _ notes => River c msg notes
  | Wrapped c _ notes b => Wrapped c msg notes b
  | _ => e
  end.

Definition LogError (e : error) : error := e.

Definition errCode (e : error) : Err :=
  match e with
  | River c _ _ => c
  | Wrapped c _ _ _ => c
  | _ => Err_UNKNOWN
  end.

Definition errMessage (e : error) : string :=
  match e with
  | River _ m _ => m
  | Wrapped _ m _ _ => m
  | External m => m
  | _ => EmptyString
  end.

(** [errors.Is(err, ethereum.NotFound)]: the sentinel or a wrap of it. *)
Fixpoint Is_NotFound (e : error) : bool :=
  match e with
  | NotFound => true
  | External _ => false
  | Errorf2 e1 e2 => Is_NotFound e1 || Is_NotFound e2
  | River _ _ _ => false
  | Wrapped _ _ _ b => Is_NotFound b
  end.

Inductive Result (A : Type) : Type :=
| Ok (a : A)
| Fail (e : error).

Arguments Ok {A} a.
Arguments Fail {A} e.

(** ** Results, reasons and cached values *)

Inductive EntitlementResultReason : Type :=
| EntitlementResultReason_NONE
| EntitlementResultReason_SPACE_DISABLED
| EntitlementResultReason_CHANNEL_DISABLED
| EntitlementResultReason_SPACE_ENTITLEMENTS
| EntitlementResultReason_CHANNEL_ENTITLEMENTS
| EntitlementResultReason_MEMBERSHIP
| EntitlementResultReason_MEMBERSHIP_EXPIRED
| EntitlementResultReason_WALLET_NOT_LINKED.

Record isEntitledResult : Type := {
  isAllowed : bool;
  reason : EntitlementResultReason
}.

(** Modelled from the spec: [boolCacheResult] is declared next to the
    cache, outside the sources; the source builds it as
    [boolCacheResult{allowed, reason}] and the spec returns "(allowed,
    reason)". *)
Record boolCacheResult : Type := mkBool {
  bcr_allowed : bool;
  bcr_reason : EntitlementResultReason
}.

(** Modelled from the spec: [MembershipStatus] is
    "{ isMember: bool, isExpired: bool, expiry: timestamp }". *)
Record MembershipStatus : Type := {
  IsMember : bool;
  IsExpired : bool;
  ExpiryTime : Z
}.

Record membershipStatusCacheResult : Type := {
  status : MembershipStatus
}.

Record linkedWalletCacheValue : Type := {
  wallets : list Address
}.

(** The [CacheResult] interface. *)
Class CacheResult (V : Type) : Type := {
  IsAllowed : V -> bool;
  Reason : V -> EntitlementResultReason
}.

(** ** Programs over a state

    [Prog S A] is a Go function body that reads and updates the state [S]
    and returns [(A, error)]. *)

Definition Prog (S A : Type) : Type := S -> Result A * S.

Definition ret {S A : Type} (a : A) : Prog S A := fun st => (Ok a, st).

Definition fail {S A : Type} (e : error) : Prog S A := fun st => (Fail e, st).

Definition bind {S A B : Type} (m : Prog S A) (k : A -> Prog S B) : Prog S B :=
  fun st =>
    match m st with
    | (Ok a, st') => k a st'
    | (Fail e, st') => (Fail e, st')
    end.

(** [if err != nil { return ..., wrap(err) }] after a call. *)
Definition orWrap {S A : Type} (m : Prog S A) (wrap : error -> error) : Prog S A :=
  fun st =>
    match m st with
    | (Ok a, st') => (Ok a, st')
    | (Fail e, st') => (Fail (wrap e), st')
    end.

Notation "x <- m ;; k" := (bind m (fun x => k))
  (at level 61, m at next level, right associativity).
Notation "' pat <- m ;; k" := (bind m (fun x => match x with pat => k end))
  (at level 61, pat pattern, m at next level, right associativity).
Notation "m ;;; k" := (bind m (fun _ => k))
  (at level 61, right associativity).

(** ** Chain data (go-ethereum) and user receipts (protocol) *)

Definition MaxUint64 : Z := 2 ^ 64.

(** [big.Int.Uint64]: the low 64 bits of the absolute value. *)
Definition Uint64 (x : Z) : Z := Z.abs x mod MaxUint64.

(** Subtraction of two [uint64]. *)
Definition sub64 (a b : Z) : Z := (a - b) mod MaxUint64.

Module ethTypes.

(** [To] is nil for a contract creation; [Sender] is what the latest
    signer for the transaction's chain id recovers from its signature. *)
Record Transaction : Type := {
  To : option Address;
  ChainId : Z;
  Sender : Result Address
}.

Record Log : Type := {
  Address : Address;
  Topics : list Hash;
  Data : list byte
}.

Record Receipt : Type := {
  BlockNumber : Z;
  Logs : list Log
}.

End ethTypes.

Module protocol.

Record BlockchainTransactionReceipt_Log : Type := {
  Address : list byte;
  Topics : list (list byte);
  Data : list byte
}.

Record BlockchainTransactionReceipt : Type := {
  ChainId : Z;
  TransactionHash : list byte;
  BlockNumber : Z;
  To : list byte;
  From : list byte;
  Logs : list BlockchainTransactionReceipt_Log
}.

End protocol.

(** The chain client: each method answers with its result or its error. *)
Record BlockchainClient : Type := {
  TransactionReceipt : Hash -> Result ethTypes.Receipt;
  TransactionByHash : Hash -> Result (ethTypes.Transaction * bool);
  BlockNumber : Result Z
}.

Record Blockchain : Type := {
  Client : BlockchainClient
}.

(** The binding of the wallet link contract. *)
Record WalletLink : Type := {
  walletLinkAddress : Address
}.

(** What a run of a function that can dereference nil or index out of
    range does: it returns, or it panics. *)
Inductive Run (A : Type) : Type :=
| Returns (r : Result A)
| Panics.

Arguments Returns {A} r.
Arguments Panics {A}.

Definition andThen {A B : Type} (r : Run A) (k : A -> Run B) : Run B :=
  match r with
  | Returns (Ok a) => k a
  | Returns (Fail e) => Returns (Fail e)
  | Panics => Panics
  end.


(** What the program takes from outside its sources and the model leaves
    open: the rule data of the entitlement contracts and the conversion of
    a V1 rule (a nil pointer is [None]), the Keccak-256 hash behind the
    checksum of [Address.Hex], the order in which the membership goroutines
    of [checkEntitlement] complete, and the [CacheResult] methods of the
    two cache values declared next to the cache. *)
Class Externals : Type := {
  RuleDataV1 : Type;
  RuleDataV2 : Type;
  ConvertV1RuleDataToV2 : option RuleDataV1 -> Result (option RuleDataV2);
  keccak256 : list byte -> list byte;
  completionOrder : list Address -> list Address;
  linkedWalletCacheValue_CacheResult : CacheResult linkedWalletCacheValue;
  membershipStatusCacheResult_CacheResult : CacheResult membershipStatusCacheResult
}.

#[global] Existing Instance linkedWalletCacheValue_CacheResult.
#[global] Existing Instance membershipStatusCacheResult_CacheResult.

#[global] Instance boolCacheResult_CacheResult : CacheResult boolCacheResult := {
  IsAllowed := bcr_allowed;
  Reason := bcr_reason
}.

Section Model.

Context {X : Externals}.

(** One step of the checksum loop of [checksumHex] at buffer index [i]:
    a letter is upper-cased when the matching nibble of the hash exceeds 7. *)
Definition checksumChar (hash : list byte) (i : nat) (c : ascii) : ascii :=
  let hashByte := Byte.to_N (nth ((i - 2) / 2) hash x00) in
  let hashByte := if Nat.even i then N.shiftr hashByte 4 else N.land hashByte 15 in
  if (N_of_ascii "9" <? N_of_ascii c)%N && (7 <? hashByte)%N
  then ascii_of_N (N_of_ascii c - 32)
  else c.

Fixpoint checksumLoop (hash : list byte) (i : nat) (buf : string) : string :=
  match buf with
  | EmptyString => EmptyString
  | String c rest => String (checksumChar hash i c) (checksumLoop hash (S i) rest)
  end.

(** The two spellings a digit can take in a checksummed address. *)
Definition spelling (upper : bool) (c : ascii) : ascii :=
  if (N_of_ascii "9" <? N_of_ascii c)%N && upper
  then ascii_of_N (N_of_ascii c - 32)
  else c.

(** [Address.hex]: "0x" and the 40 lower-case digits. *)
Definition Address_hex (a : Address) : string :=
  String.append "0x" (hexEncode (fixedBytes a)).

(** [Address.Hex], the EIP-55 checksummed text. *)
Definition Address_Hex (a : Address) : string :=
  let buf := Address_hex a in
  let digits := String.substring 2 (String.length buf - 2) buf in
  let hash := keccak256 (list_byte_of_string digits) in
  String.append (String.substring 0 2 buf) (checksumLoop hash 2 digits).

(** ** strings.Split with the separator "," *)

Fixpoint Split_comma (s : string) : list string :=
  match s with
  | EmptyString => [EmptyString]
  | String c rest =>
      if Ascii.eqb c ","
      then EmptyString :: Split_comma rest
      else match Split_comma rest with
           | field :: fields => String c field :: fields
           | [] => [String c EmptyString]
           end
  end.

(** ** Requests *)

Inductive chainAuthKind : Type :=
| chainAuthKindSpace
| chainAuthKindChannel
| chainAuthKindSpaceEnabled
| chainAuthKindChannelEnabled
| chainAuthKindIsSpaceMember
| chainAuthKindIsWalletLinked.

Definition chainAuthKind_eqb (a b : chainAuthKind) : bool :=
  match a, b with
  | chainAuthKindSpace, chainAuthKindSpace
  | chainAuthKindChannel, chainAuthKindChannel
  | chainAuthKindSpaceEnabled, chainAuthKindSpaceEnabled
  | chainAuthKindChannelEnabled, chainAuthKindChannelEnabled
  | chainAuthKindIsSpaceMember, chainAuthKindIsSpaceMember
  | chainAuthKindIsWalletLinked, chainAuthKindIsWalletLinked => true
  | _, _ => false
  end.

(** [shared.StreamId], an opaque identifier. *)
Definition StreamId : Type := list byte.

(** Modelled from the spec: the protocol's [Permission] enumeration is not
    among the sources.  The spec lists it as "an enumerated symbolic
    permission (e.g. Read, Write, ModifyBanning, ...)", opaque except for
    [Read]; [PermissionUndefined] is the zero value of the enumeration. *)
Inductive Permission : Type :=
| PermissionUndefined
| PermissionRead
| PermissionWrite
| PermissionModifyBanning
| PermissionOther (n : N).

Definition Permission_eqb (a b : Permission) : bool :=
  match a, b with
  | PermissionUndefined, PermissionUndefined
  | PermissionRead, PermissionRead
  | PermissionWrite, PermissionWrite
  | PermissionModifyBanning, PermissionModifyBanning => true
  | PermissionOther n, PermissionOther m => N.eqb n m
  | _, _ => false
  end.

Record ChainAuthArgs : Type := mkChainAuthArgs {
  kind : chainAuthKind;
  spaceId : StreamId;
  channelId : StreamId;
  principal : Address;
  permission : Permission;
  linkedWallets : string;
  walletAddress : Address
}.

Definition zeroAddress : Address := BytesToAddress [].

Definition ChainAuthArgs_eqb (a b : ChainAuthArgs) : bool :=
  chainAuthKind_eqb (kind a) (kind b)
  && bytes_eqb (spaceId a) (spaceId b)
  && bytes_eqb (channelId a) (channelId b)
  && Address_eqb (principal a) (principal b)
  && Permission_eqb (permission a) (permission b)
  && String.eqb (linkedWallets a) (linkedWallets b)
  && Address_eqb (walletAddress a) (walletAddress b).

(** The loop of [withLinkedWallets]: [builder] is the text written so far,
    [i] the index of the next address. *)
Fixpoint writeWallets (i : nat) (ws : list Address) (builder : string) : string :=
  match ws with
  | [] => builder
  | addr :: rest =>
      let builder := if (0 <? i)%nat then String.append builder "," else builder in
      writeWallets (S i) rest (String.append builder (Address_Hex addr))
  end.

Definition withLinkedWallets (args : ChainAuthArgs) (ws : list Address) : ChainAuthArgs :=
  {| kind := kind args;
     spaceId := spaceId args;
     channelId := channelId args;
     principal := principal args;
     permission := permission args;
     linkedWallets := writeWallets 0 ws EmptyString;
     walletAddress := walletAddress args |}.

Definition deserializeWallets (serialized : string) : list Address :=
  map HexToAddress (Split_comma serialized).

(** The text [withLinkedWallets] writes after the first address. *)
Fixpoint moreWallets (ws : list Address) : string :=
  match ws with
  | [] => EmptyString
  | addr :: rest => String "," (String.append (Address_Hex addr) (moreWallets rest))
  end.

Fixpoint no_comma (s : string) : bool :=
  match s with
  | EmptyString => true
  | String c rest => negb (Ascii.eqb c ",") && no_comma rest
  end.

(** ** Entitlement records *)

(** Modelled from the spec: the [types.Entitlement] declaration and the
    [ModuleType...] constants are not among the sources.  The spec gives
    the record as a tagged union with the variants RuleV1, RuleV2 and
    UserList and speaks of unknown variants; the source reads the tag from
    [EntitlementType] and the payloads from the three other fields (the rule
    data are pointers, nil being [None]). *)
Inductive ModuleType : Type :=
| ModuleTypeRuleEntitlement
| ModuleTypeRuleEntitlementV2
| ModuleTypeUserEntitlement
| ModuleTypeUnknown (name : string).

Record Entitlement : Type := {
  EntitlementType : ModuleType;
  RuleEntitlement : option RuleDataV1;
  RuleEntitlementV2 : option RuleDataV2;
  UserEntitlement : list Address
}.

Record entitlementCacheResult : Type := {
  allowed : bool;
  entitlementData : list Entitlement;
  owner : Address
}.

#[export] Instance entitlementCacheResult_CacheResult : CacheResult entitlementCacheResult := {
  IsAllowed := allowed;
  Reason := fun _ => EntitlementResultReason_NONE
}.

(** [var everyone = common.HexToAddress("0x1")] *)
Definition everyone : Address := HexToAddress "0x1".

(** ** Collaborators *)

Record SpaceContract : Type := {
  IsSpaceDisabled : StreamId -> Result bool;
  IsChannelDisabled : StreamId -> StreamId -> Result bool;
  GetSpaceEntitlementsForPermission :
    StreamId -> Permission -> Result (list Entitlement * Address);
  GetChannelEntitlementsForPermission :
    StreamId -> StreamId -> Permission -> Result (list Entitlement * Address);
  IsBanned : StreamId -> list Address -> Result bool;
  GetMembershipStatus : StreamId -> Address -> Result MembershipStatus
}.

Record Evaluator : Type := {
  GetClient : Z -> Result BlockchainClient;
  EvaluateRuleData : list Address -> option RuleDataV2 -> Result bool;
  GetLinkedWallets : Address -> option WalletLink -> Result (list Address)
}.

Definition DEFAULT_REQUEST_TIMEOUT_MS : Z := 10000.
Definition DEFAULT_MAX_WALLETS : Z := 10.

(** The fields of [chainAuth] that a call does not change; the four
    caches and the counters are in the [State]. *)
Record chainAuth : Type := {
  blockchain : Blockchain;
  evaluator : Evaluator;
  spaceContract : SpaceContract;
  walletLinkContract : option WalletLink;
  linkedWalletsLimit : Z;
  contractCallsTimeoutMs : Z
}.

(** ** The caches *)

(** Modelled from the spec: the cache ([entitlementCache], its
    [executeUsingCache] and [bust]) is not among the sources.  The spec has
    "CachedValue<T>. { result: T, insertedAt: timestamp, positive: bool }",
    positive values under the long TTL and negative ones under the short
    TTL. *)
Record CachedValue (V : Type) : Type := {
  result : V;
  insertedAt : Z;
  positive : bool
}.

Arguments result {V} _.
Arguments insertedAt {V} _.
Arguments positive {V} _.

Record Cache (V : Type) : Type := {
  entries : list (ChainAuthArgs * CachedValue V);
  positiveTTL : Z;
  negativeTTL : Z
}.

Arguments entries {V} _.
Arguments positiveTTL {V} _.
Arguments negativeTTL {V} _.

Inductive CacheName : Type :=
| entitlementCacheName
| membershipCacheName
| entitlementManagerCacheName
| linkedWalletCacheName.

Inductive Counter : Type :=
| isEntitledToChannelCacheHit
| isEntitledToChannelCacheMiss
| isEntitledToSpaceCacheHit
| isEntitledToSpaceCacheMiss
| isSpaceEnabledCacheHit
| isSpaceEnabledCacheMiss
| isChannelEnabledCacheHit
| isChannelEnabledCacheMiss
| entitlementCacheHit
| entitlementCacheMiss
| linkedWalletCacheHit
| linkedWalletCacheMiss
| linkedWalletCacheBust
| membershipCacheHit
| membershipCacheMiss.

(** What a run of the decision pipeline does to the outside and to its
    counters, in the order it does it. *)
Inductive Event : Type :=
| CallIsSpaceDisabled (spaceId : StreamId)
| CallIsChannelDisabled (spaceId channelId : StreamId)
| CallGetSpaceEntitlementsForPermission (spaceId : StreamId) (p : Permission)
| CallGetChannelEntitlementsForPermission (spaceId channelId : StreamId) (p : Permission)
| CallIsBanned (spaceId : StreamId) (wallets : list Address)
| CallGetMembershipStatus (spaceId : StreamId) (principal : Address)
| CallGetLinkedWallets (principal : Address)
| CallConvertV1RuleDataToV2 (re : option RuleDataV1)
| CallEvaluateRuleData (wallets : list Address) (re : option RuleDataV2)
| Bust (cache : CacheName) (key : ChainAuthArgs)
| Inc (counter : Counter).

Record State : Type := {
  entitlementCache : Cache boolCacheResult;
  membershipCache : Cache membershipStatusCacheResult;
  entitlementManagerCache : Cache entitlementCacheResult;
  linkedWalletCache : Cache linkedWalletCacheValue;
  now : Z;
  history : list Event
}.

Definition M (A : Type) : Type := Prog State A.

Definition record (ev : Event) (st : State) : State :=
  {| entitlementCache := entitlementCache st;
     membershipCache := membershipCache st;
     entitlementManagerCache := entitlementManagerCache st;
     linkedWalletCache := linkedWalletCache st;
     now := now st;
     history := history st ++ [ev] |}.

(** A call to a collaborator: the call is recorded and answered. *)
Definition call {A : Type} (ev : Event) (answer : Result A) : M A :=
  fun st => (answer, record ev st).

Definition inc (c : Counter) : M unit := fun st => (Ok tt, record (Inc c) st).

(** One of the four caches of the state. *)
Record CacheRef (V : Type) : Type := {
  cacheName : CacheName;
  getCache : State -> Cache V;
  setCache : Cache V -> State -> State
}.

Arguments cacheName {V} _.
Arguments getCache {V} _.
Arguments setCache {V} _.

Definition entitlementCacheRef : CacheRef boolCacheResult :=
  {| cacheName := entitlementCacheName;
     getCache := entitlementCache;
     setCache := fun c st =>
       {| entitlementCache := c;
          membershipCache := membershipCache st;
          entitlementManagerCache := entitlementManagerCache st;
          linkedWalletCache := linkedWalletCache st;
          now := now st;
          history := history st |} |}.

Definition membershipCacheRef : CacheRef membershipStatusCacheResult :=
  {| cacheName := membershipCacheName;
     getCache := membershipCache;
     setCache := fun c st =>
       {| entitlementCache := entitlementCache st;
          membershipCache := c;
          entitlementManagerCache := entitlementManagerCache st;
          linkedWalletCache := linkedWalletCache st;
          now := now st;
          history := history st |} |}.

Definition entitlementManagerCacheRef : CacheRef entitlementCacheResult :=
  {| cacheName := entitlementManagerCacheName;
     getCache := entitlementManagerCache;
     setCache := fun c st =>
       {| entitlementCache := entitlementCache st;
          membershipCache := membershipCache st;
          entitlementManagerCache := c;
          linkedWalletCache := linkedWalletCache st;
          now := now st;
          history := history st |} |}.

Definition linkedWalletCacheRef : CacheRef linkedWalletCacheValue :=
  {| cacheName := linkedWalletCacheName;
     getCache := linkedWalletCache;
     setCache := fun c st =>
       {| entitlementCache := entitlementCache st;
          membershipCache := membershipCache st;
          entitlementManagerCache := entitlementManagerCache st;
          linkedWalletCache := c;
          now := now st;
          history := history st |} |}.

Fixpoint findEntry {V : Type} (key : ChainAuthArgs)
    (es : list (ChainAuthArgs * CachedValue V)) : option (CachedValue V) :=
  match es with
  | [] => None
  | (k, v) :: rest => if ChainAuthArgs_eqb key k then Some v else findEntry key rest
  end.

Definition removeEntry {V : Type} (key : ChainAuthArgs)
    (es : list (ChainAuthArgs * CachedValue V)) : list (ChainAuthArgs * CachedValue V) :=
  filter (fun e => negb (ChainAuthArgs_eqb key (fst e))) es.

(** Modelled from the spec: "The cache never returns a value whose age
    exceeds its TTL bucket." *)
Definition isFresh {V : Type} (c : Cache V) (t : Z) (v : CachedValue V) : bool :=
  (t - insertedAt v <=? (if positive v then positiveTTL c else negativeTTL c))%Z.

Definition lookupFresh {V : Type} (c : Cache V) (t : Z) (key : ChainAuthArgs)
    : option (CachedValue V) :=
  match findEntry key (entries c) with
  | Some v => if isFresh c t v then Some v else None
  | None => None
  end.

Definition withEntries {V : Type} (c : Cache V)
    (es : list (ChainAuthArgs * CachedValue V)) : Cache V :=
  {| entries := es; positiveTTL := positiveTTL c; negativeTTL := negativeTTL c |}.

(** Modelled from the spec: "Lookup-or-compute. executeUsingCache(req, fn)
    returns (value, wasCacheHit)"; a result marked [IsAllowed] is stored as
    positive, any other as negative; "fn errors are NOT cached as hits;
    they propagate".  Single-flight is not modelled: a run is sequential. *)
Definition executeUsingCache {V : Type} `{CacheResult V} (c : CacheRef V)
    (key : ChainAuthArgs) (onMiss : ChainAuthArgs -> M V) : M (V * bool) :=
  fun st =>
    match lookupFresh (getCache c st) (now st) key with
    | Some v => (Ok (result v, true), st)
    | None =>
        match onMiss key st with
        | (Fail e, st') => (Fail e, st')
        | (Ok r, st') =>
            let v := {| result := r; insertedAt := now st'; positive := IsAllowed r |} in
            let cache := getCache c st' in
            (Ok (r, false),
             setCache c (withEntries cache ((key, v) :: removeEntry key (entries cache))) st')
        end
    end.

(** Modelled from the spec: "Bust. bust(key) removes the entry
    immediately". *)
Definition bust {V : Type} (c : CacheRef V) (key : ChainAuthArgs) : M unit :=
  fun st =>
    let cache := getCache c st in
    (Ok tt,
     record (Bust (cacheName c) key)
       (setCache c (withEntries cache (removeEntry key (entries cache))) st)).


(** ** Building requests *)

Definition NewChainAuthArgsForSpace (spaceId : StreamId) (userId : string)
    (permission : Permission) : ChainAuthArgs :=
  {| kind := chainAuthKindSpace;
     spaceId := spaceId;
     channelId := [];
     principal := HexToAddress userId;
     permission := permission;
     linkedWallets := EmptyString;
     walletAddress := zeroAddress |}.

Definition NewChainAuthArgsForChannel (spaceId channelId : StreamId) (userId : string)
    (permission : Permission) : ChainAuthArgs :=
  {| kind := chainAuthKindChannel;
     spaceId := spaceId;
     channelId := channelId;
     principal := HexToAddress userId;
     permission := permission;
     linkedWallets := EmptyString;
     walletAddress := zeroAddress |}.

Definition NewChainAuthArgsForIsSpaceMember (spaceId : StreamId) (userId : string)
    : ChainAuthArgs :=
  {| kind := chainAuthKindIsSpaceMember;
     spaceId := spaceId;
     channelId := [];
     principal := HexToAddress userId;
     permission := PermissionUndefined;
     linkedWallets := EmptyString;
     walletAddress := zeroAddress |}.

Definition NewChainAuthArgsForIsWalletLinked (userAddress walletAddress : list byte)
    : ChainAuthArgs :=
  {| kind := chainAuthKindIsWalletLinked;
     spaceId := [];
     channelId := [];
     principal := BytesToAddress userAddress;
     permission := PermissionUndefined;
     linkedWallets := EmptyString;
     walletAddress := BytesToAddress walletAddress |}.

Definition newArgsForEnabledSpace (spaceId : StreamId) : ChainAuthArgs :=
  {| kind := chainAuthKindSpaceEnabled;
     spaceId := spaceId;
     channelId := [];
     principal := zeroAddress;
     permission := PermissionUndefined;
     linkedWallets := EmptyString;
     walletAddress := zeroAddress |}.

Definition newArgsForEnabledChannel (spaceId channelId : StreamId) : ChainAuthArgs :=
  {| kind := chainAuthKindChannelEnabled;
     spaceId := spaceId;
     channelId := channelId;
     principal := zeroAddress;
     permission := PermissionUndefined;
     linkedWallets := EmptyString;
     walletAddress := zeroAddress |}.

(** Used as a cache key for linked wallets, which span multiple spaces and
    channels. *)
Definition newArgsForLinkedWallets (principal : Address) : ChainAuthArgs :=
  {| kind := chainAuthKindSpace;
     spaceId := [];
     channelId := [];
     principal := principal;
     permission := PermissionUndefined;
     linkedWallets := EmptyString;
     walletAddress := zeroAddress |}.

(** ** Enabled checks *)

Definition isSpaceEnabledUncached (ca : chainAuth) (args : ChainAuthArgs)
    : M boolCacheResult :=
  isDisabled <- call (CallIsSpaceDisabled (spaceId args))
                     (IsSpaceDisabled (spaceContract ca) (spaceId args)) ;;
  ret (mkBool (negb isDisabled) EntitlementResultReason_SPACE_DISABLED).

Definition checkSpaceEnabled (ca : chainAuth) (spaceId : StreamId)
    : M (bool * EntitlementResultReason) :=
  '(isEnabled, cacheHit) <-
     executeUsingCache entitlementCacheRef (newArgsForEnabledSpace spaceId)
       (isSpaceEnabledUncached ca) ;;
  inc (if cacheHit : bool then isSpaceEnabledCacheHit else isSpaceEnabledCacheMiss) ;;;
  ret (IsAllowed isEnabled, Reason isEnabled).

Definition isChannelEnabledUncached (ca : chainAuth) (args : ChainAuthArgs)
    : M boolCacheResult :=
  isDisabled <- call (CallIsChannelDisabled (spaceId args) (channelId args))
                     (IsChannelDisabled (spaceContract ca) (spaceId args) (channelId args)) ;;
  ret (mkBool (negb isDisabled) EntitlementResultReason_CHANNEL_DISABLED).

Definition checkChannelEnabled (ca : chainAuth) (spaceId channelId : StreamId)
    : M (bool * EntitlementResultReason) :=
  '(isEnabled, cacheHit) <-
     executeUsingCache entitlementCacheRef (newArgsForEnabledChannel spaceId channelId)
       (isChannelEnabledUncached ca) ;;
  inc (if cacheHit : bool then isChannelEnabledCacheHit else isChannelEnabledCacheMiss) ;;;
  ret (IsAllowed isEnabled, Reason isEnabled).

(** ** Entitlement data *)

(** With the error, the source also returns a result marked not allowed;
    the cache stores nothing on an error, so the result is dropped. *)
Definition getSpaceEntitlementsForPermissionUncached (ca : chainAuth)
    (args : ChainAuthArgs) : M entitlementCacheResult :=
  '(entitlementData, owner) <-
     orWrap (call (CallGetSpaceEntitlementsForPermission (spaceId args) (permission args))
                  (GetSpaceEntitlementsForPermission (spaceContract ca)
                     (spaceId args) (permission args)))
            (fun err => Message "Failed to get space entitlements"
                          (Func "getSpaceEntitlementsForPermision" (AsRiverError err None))) ;;
  ret {| allowed := true; entitlementData := entitlementData; owner := owner |}.

Definition getChannelEntitlementsForPermissionUncached (ca : chainAuth)
    (args : ChainAuthArgs) : M entitlementCacheResult :=
  '(entitlementData, owner) <-
     orWrap (call (CallGetChannelEntitlementsForPermission
                     (spaceId args) (channelId args) (permission args))
                  (GetChannelEntitlementsForPermission (spaceContract ca)
                     (spaceId args) (channelId args) (permission args)))
            (fun err => Message "Failed to get channel entitlements"
                          (Func "getChannelEntitlementsForPermission" (AsRiverError err None))) ;;
  ret {| allowed := true; entitlementData := entitlementData; owner := owner |}.

(** [for _, wallet := range wallets { if wallet == a { return true } }] *)
Fixpoint hasWallet (a : Address) (wallets : list Address) : bool :=
  match wallets with
  | [] => false
  | wallet :: rest => if Address_eqb wallet a then true else hasWallet a rest
  end.

(** The loop over the users of a user entitlement. *)
Fixpoint userEntitlementPasses (wallets : list Address) (users : list Address) : bool :=
  match users with
  | [] => false
  | user :: rest =>
      if Address_eqb user everyone then true
      else if hasWallet user wallets then true
      else userEntitlementPasses wallets rest
  end.

(** The loop of [evaluateEntitlementData] over the entitlements. *)
Fixpoint evaluateEntitlements (ca : chainAuth) (wallets : list Address)
    (entitlements : list Entitlement) : M bool :=
  match entitlements with
  | [] => ret false
  | ent :: rest =>
      match EntitlementType ent with
      | ModuleTypeRuleEntitlement =>
          let re := RuleEntitlement ent in
          reV2 <- call (CallConvertV1RuleDataToV2 re) (ConvertV1RuleDataToV2 re) ;;
          result <- call (CallEvaluateRuleData wallets reV2)
                         (EvaluateRuleData (evaluator ca) wallets reV2) ;;
          if result : bool then ret true else evaluateEntitlements ca wallets rest
      | ModuleTypeRuleEntitlementV2 =>
          let re := RuleEntitlementV2 ent in
          result <- call (CallEvaluateRuleData wallets re)
                         (EvaluateRuleData (evaluator ca) wallets re) ;;
          if result : bool then ret true else evaluateEntitlements ca wallets rest
      | ModuleTypeUserEntitlement =>
          if userEntitlementPasses wallets (UserEntitlement ent) then ret true
          else evaluateEntitlements ca wallets rest
      | ModuleTypeUnknown _ => evaluateEntitlements ca wallets rest
      end
  end.

Definition evaluateEntitlementData (ca : chainAuth) (entitlements : list Entitlement)
    (args : ChainAuthArgs) : M bool :=
  let wallets := deserializeWallets (linkedWallets args) in
  evaluateEntitlements ca wallets entitlements.

Definition evaluateWithEntitlements (ca : chainAuth) (args : ChainAuthArgs)
    (owner : Address) (entitlements : list Entitlement) : M bool :=
  let wallets := deserializeWallets (linkedWallets args) in
  if hasWallet owner wallets then ret true
  else
    banned <- orWrap (call (CallIsBanned (spaceId args) wallets)
                           (IsBanned (spaceContract ca) (spaceId args) wallets))
                     (fun err => Tag "userId" (Tag "spaceId"
                                   (Func "evaluateEntitlements" (AsRiverError err None)))) ;;
    if banned : bool then ret false
    else
      orWrap (evaluateEntitlementData ca entitlements args)
             (fun err => Func "evaluateEntitlements" (AsRiverError err None)).

Definition isEntitledToChannelUncached (ca : chainAuth) (args : ChainAuthArgs)
    : M boolCacheResult :=
  '(cached, cacheHit) <-
     orWrap (executeUsingCache entitlementManagerCacheRef args
               (getChannelEntitlementsForPermissionUncached ca))
            (fun err => Message "Failed to get channel entitlements"
                          (Func "isEntitledToChannel" (AsRiverError err None))) ;;
  inc (if cacheHit : bool then entitlementCacheHit else entitlementCacheMiss) ;;;
  allowed <- orWrap (evaluateWithEntitlements ca args (owner cached)
                       (entitlementData cached))
                    (fun err => Tag "channelId"
                                  (Message "Failed to evaluate entitlements"
                                     (Func "isEntitledToChannel" (AsRiverError err None)))) ;;
  ret (mkBool allowed EntitlementResultReason_CHANNEL_ENTITLEMENTS).

Definition isEntitledToSpaceUncached (ca : chainAuth) (args : ChainAuthArgs)
    : M boolCacheResult :=
  '(cached, cacheHit) <-
     orWrap (executeUsingCache entitlementManagerCacheRef args
               (getSpaceEntitlementsForPermissionUncached ca))
            (fun err => Message "Failed to get space entitlements"
                          (Func "isEntitledToSpace" (AsRiverError err None))) ;;
  inc (if cacheHit : bool then entitlementCacheHit else entitlementCacheMiss) ;;;
  allowed <- orWrap (evaluateWithEntitlements ca args (owner cached)
                       (entitlementData cached))
                    (fun err => Message "Failed to evaluate entitlements"
                                  (Func "isEntitledToSpace" (AsRiverError err None))) ;;
  ret (mkBool allowed EntitlementResultReason_SPACE_ENTITLEMENTS).

Definition isEntitledToSpace (ca : chainAuth) (args : ChainAuthArgs)
    : M (bool * EntitlementResultReason) :=
  if negb (chainAuthKind_eqb (kind args) chainAuthKindSpace)
  then fail (RiverError Err_INTERNAL "Wrong chain auth kind")
  else
    '(isEntitled, cacheHit) <-
       executeUsingCache entitlementCacheRef args (isEntitledToSpaceUncached ca) ;;
    inc (if cacheHit : bool then isEntitledToSpaceCacheHit else isEntitledToSpaceCacheMiss) ;;;
    ret (IsAllowed isEntitled, Reason isEntitled).

Definition isEntitledToChannel (ca : chainAuth) (args : ChainAuthArgs)
    : M (bool * EntitlementResultReason) :=
  if negb (chainAuthKind_eqb (kind args) chainAuthKindChannel)
  then fail (RiverError Err_INTERNAL "Wrong chain auth kind")
  else
    '(isEntitled, cacheHit) <-
       executeUsingCache entitlementCacheRef args (isEntitledToChannelUncached ca) ;;
    inc (if cacheHit : bool then isEntitledToChannelCacheHit else isEntitledToChannelCacheMiss) ;;;
    ret (IsAllowed isEntitled, Reason isEntitled).

Definition areLinkedWalletsEntitled (ca : chainAuth) (args : ChainAuthArgs)
    : M (bool * EntitlementResultReason) :=
  match kind args with
  | chainAuthKindSpace => isEntitledToSpace ca args
  | chainAuthKindChannel => isEntitledToChannel ca args
  | chainAuthKindIsSpaceMember => ret (true, EntitlementResultReason_NONE)
  | _ => fail (Func "isWalletEntitled" (RiverError Err_INTERNAL "Unknown chain auth kind"))
  end.


(** ** Linked wallets *)

Definition getLinkedWalletsUncached (ca : chainAuth) (args : ChainAuthArgs)
    : M linkedWalletCacheValue :=
  wallets <- call (CallGetLinkedWallets (principal args))
                  (GetLinkedWallets (evaluator ca) (principal args) (walletLinkContract ca)) ;;
  ret {| wallets := wallets |}.

(** We want fresh linked wallets when evaluating space and channel joins,
    key solicitations, user scrubs, and checking if a wallet is linked. *)
Definition wantsFreshWallets (args : ChainAuthArgs) : bool :=
  Permission_eqb (permission args) PermissionRead
  || chainAuthKind_eqb (kind args) chainAuthKindIsSpaceMember
  || chainAuthKind_eqb (kind args) chainAuthKindIsWalletLinked.

Definition getLinkedWallets (ca : chainAuth) (args : ChainAuthArgs) : M (list Address) :=
  match walletLinkContract ca with
  | None => ret [principal args]
  | Some _ =>
      let userCacheKey := newArgsForLinkedWallets (principal args) in
      (if wantsFreshWallets args
       then bust linkedWalletCacheRef userCacheKey ;;; inc linkedWalletCacheBust
       else ret tt) ;;;
      '(cached, cacheHit) <-
         executeUsingCache linkedWalletCacheRef userCacheKey (getLinkedWalletsUncached ca) ;;
      inc (if cacheHit : bool then linkedWalletCacheHit else linkedWalletCacheMiss) ;;;
      ret (wallets cached)
  end.

(** ** Membership *)

Definition checkMembershipUncached (ca : chainAuth) (args : ChainAuthArgs)
    : M membershipStatusCacheResult :=
  membershipStatus <- call (CallGetMembershipStatus (spaceId args) (principal args))
                           (GetMembershipStatus (spaceContract ca)
                              (spaceId args) (principal args)) ;;
  ret {| status := membershipStatus |}.

(** The two channels of the membership probe: what was sent on
    [isMemberResults] and on [isMemberError], oldest first.  Both are
    buffered to the number of wallets, so that no send blocks. *)
Record Channels : Type := {
  isMemberResults : list membershipStatusCacheResult;
  isMemberError : list error
}.

(** One goroutine of the probe: it sends its error or its result. *)
Definition checkMembership (ca : chainAuth) (address : Address) (spaceId : StreamId)
    (chans : Channels) (st : State) : Channels * State :=
  let args := {| kind := chainAuthKindIsSpaceMember;
                 spaceId := spaceId;
                 channelId := [];
                 principal := address;
                 permission := PermissionUndefined;
                 linkedWallets := EmptyString;
                 walletAddress := zeroAddress |} in
  match executeUsingCache membershipCacheRef args (checkMembershipUncached ca) st with
  | (Fail err, st') =>
      ({| isMemberResults := isMemberResults chans;
          isMemberError := isMemberError chans ++ [err] |}, st')
  | (Ok (cachedResult, cacheHit), st') =>
      ({| isMemberResults := isMemberResults chans ++ [cachedResult];
          isMemberError := isMemberError chans |},
       record (Inc (if cacheHit : bool then membershipCacheHit else membershipCacheMiss)) st')
  end.

(** The goroutines started for the wallets, run to completion one after
    the other in the order [addresses]. *)
Fixpoint runMembershipChecks (ca : chainAuth) (spaceId : StreamId)
    (addresses : list Address) (chans : Channels) (st : State) : Channels * State :=
  match addresses with
  | [] => (chans, st)
  | address :: rest =>
      let '(chans', st') := checkMembership ca address spaceId chans st in
      runMembershipChecks ca spaceId rest chans' st'
  end.

(** [for result := range isMemberResults]: the loop stops at the first
    member that is not expired, or when the channel is drained. *)
Fixpoint receiveResults (results : list membershipStatusCacheResult)
    (isMember isExpired : bool) : bool * bool :=
  match results with
  | [] => (isMember, isExpired)
  | result :: rest =>
      if IsMember (status result) then
        if negb (IsExpired (status result)) then (true, false)
        else receiveResults rest true isExpired
      else receiveResults rest isMember isExpired
  end.

(** [for err := range isMemberError]: the errors sent are never nil. *)
Fixpoint receiveErrors (errors : list error) (membershipError : option error)
    : option error :=
  match errors with
  | [] => membershipError
  | err :: rest =>
      receiveErrors rest
        (match membershipError with
         | Some e => Some (Errorf2 e err)
         | None => Some err
         end)
  end.

Definition checkStreamIsEnabled (ca : chainAuth) (args : ChainAuthArgs)
    : M (bool * EntitlementResultReason) :=
  match kind args with
  | chainAuthKindSpace | chainAuthKindIsSpaceMember => checkSpaceEnabled ca (spaceId args)
  | chainAuthKindChannel => checkChannelEnabled ca (spaceId args) (channelId args)
  | chainAuthKindIsWalletLinked => ret (true, EntitlementResultReason_NONE)
  | _ => fail (Func "checkStreamIsEnabled" (RiverError Err_INTERNAL "Unknown chain auth kind"))
  end.

(** The part of [checkEntitlement] after the goroutines are started:
    reading the two channels and deciding. *)
Definition decideMembership (ca : chainAuth) (args : ChainAuthArgs) (chans : Channels)
    : M boolCacheResult :=
  let '(isMember, isExpired) := receiveResults (isMemberResults chans) false true in
  if negb isMember then
    match receiveErrors (isMemberError chans) None with
    | Some membershipError =>
        fail (Tag "spaceId" (Tag "wallets" (Tag "permission" (Tag "principal"
               (Func "checkEntitlement"
                  (Message "Error(s) evaluating user space membership"
                     (AsRiverError membershipError (Some Err_CANNOT_CHECK_ENTITLEMENTS))))))))
    | None => ret (mkBool false EntitlementResultReason_MEMBERSHIP)
    end
  else if isExpired then ret (mkBool false EntitlementResultReason_MEMBERSHIP_EXPIRED)
  else
    '(result, reason) <- areLinkedWalletsEntitled ca args ;;
    ret (mkBool result reason).

(** The probe of [checkEntitlement]: one goroutine per wallet, completing
    in the order [completionOrder wallets], then the decision. *)
Definition probeMembership (ca : chainAuth) (args : ChainAuthArgs) (wallets : list Address)
    : M boolCacheResult :=
  fun st =>
    let '(chans, st') :=
      runMembershipChecks ca (spaceId args) (completionOrder wallets)
        {| isMemberResults := []; isMemberError := [] |} st in
    decideMembership ca args chans st'.

Definition checkEntitlement (ca : chainAuth) (args : ChainAuthArgs) : M boolCacheResult :=
  '(isEnabled, reason) <- checkStreamIsEnabled ca args ;;
  if negb isEnabled then ret (mkBool false reason)
  else
    wallets <- getLinkedWallets ca args ;;
    if chainAuthKind_eqb (kind args) chainAuthKindIsWalletLinked then
      if hasWallet (walletAddress args) wallets
      then ret (mkBool true EntitlementResultReason_NONE)
      else ret (mkBool false EntitlementResultReason_WALLET_NOT_LINKED)
    else if (linkedWalletsLimit ca <? Z.of_nat (List.length wallets))%Z then
      fail (LogError (RiverError Err_RESOURCE_EXHAUSTED
                        "too many wallets linked to the root key"))
    else
      let args := withLinkedWallets args wallets in
      probeMembership ca args wallets.

Definition IsEntitled (ca : chainAuth) (args : ChainAuthArgs) : M isEntitledResult :=
  '(result, _) <- orWrap (executeUsingCache entitlementCacheRef args (checkEntitlement ca))
                         (fun err => Func "IsEntitled" (AsRiverError err None)) ;;
  ret {| isAllowed := IsAllowed result; reason := Reason result |}.

(** [NewChainAuth], given what the constructors of the contracts and of
    the caches return and the time [t] of the call. *)
Definition NewChainAuth (blockchain : Blockchain) (evaluator : Evaluator)
    (newSpaceContract : Result SpaceContract)
    (newWalletLink : Result WalletLink)
    (newEntitlementCache : Result (Cache boolCacheResult))
    (newMembershipCache : Result (Cache membershipStatusCacheResult))
    (newEntitlementManagerCache : Result (Cache entitlementCacheResult))
    (newLinkedWalletCache : Result (Cache linkedWalletCacheValue))
    (linkedWalletsLimit contractCallsTimeoutMs : Z) (t : Z)
    : Result (chainAuth * State) :=
  match newSpaceContract with
  | Fail err => Fail err
  | Ok spaceContract =>
  match newWalletLink with
  | Fail err => Fail err
  | Ok walletLinkContract =>
  match newEntitlementCache with
  | Fail err => Fail err
  | Ok entitlementCache =>
  match newMembershipCache with
  | Fail err => Fail err
  | Ok membershipCache =>
  match newEntitlementManagerCache with
  | Fail err => Fail err
  | Ok entitlementManagerCache =>
  match newLinkedWalletCache with
  | Fail err => Fail err
  | Ok linkedWalletCache =>
      let linkedWalletsLimit :=
        if (linkedWalletsLimit <=? 0)%Z then DEFAULT_MAX_WALLETS else linkedWalletsLimit in
      let contractCallsTimeoutMs :=
        if (contractCallsTimeoutMs <=? 0)%Z then DEFAULT_REQUEST_TIMEOUT_MS
        else contractCallsTimeoutMs in
      Ok ({| blockchain := blockchain;
             evaluator := evaluator;
             spaceContract := spaceContract;
             walletLinkContract := Some walletLinkContract;
             linkedWalletsLimit := linkedWalletsLimit;
             contractCallsTimeoutMs := contractCallsTimeoutMs |},
          {| entitlementCache := entitlementCache;
             membershipCache := membershipCache;
             entitlementManagerCache := entitlementManagerCache;
             linkedWalletCache := linkedWalletCache;
             now := t;
             history := [] |})
  end end end end end end.

(** ** Receipt verification *)

(** The loop over the topics of one log; [i] is the index of the log and
    [j] the index of the next topic.  [uploaded[j]] panics when the
    uploaded topics run out. *)
Fixpoint compareTopics (i j : nat) (chainTopics : list Hash) (uploaded : list (list byte))
    : Run unit :=
  match chainTopics with
  | [] => Returns (Ok tt)
  | topic :: rest =>
      match uploaded with
      | [] => Panics
      | uploadedTopic :: uploadedRest =>
          if negb (bytes_Equal (fixedBytes topic) uploadedTopic)
          then Returns (Fail (RiverError Err_PERMISSION_DENIED "Log topic mismatch"))
          else compareTopics i (S j) rest uploadedRest
      end
  end.

(** The loop over the logs of the chain receipt; [i] is the index of the
    next log.  [userReceipt.Logs[i]] panics when the uploaded logs run
    out. *)
Fixpoint compareLogs (i : nat) (chainLogs : list ethTypes.Log)
    (uploadedLogs : list protocol.BlockchainTransactionReceipt_Log) : Run unit :=
  match chainLogs with
  | [] => Returns (Ok tt)
  | chainLog :: rest =>
      match uploadedLogs with
      | [] => Panics
      | uploadedLog :: uploadedRest =>
          if negb (bytes_Equal (fixedBytes (ethTypes.Address chainLog))
                               (protocol.Address uploadedLog))
          then Returns (Fail (RiverError Err_PERMISSION_DENIED "Log address mismatch:"))
          else if negb (List.length (ethTypes.Topics chainLog)
                        =? List.length (protocol.Topics uploadedLog))%nat
          then Returns (Fail (RiverError Err_PERMISSION_DENIED "Log topics count mismatch"))
          else
            andThen (compareTopics i 0 (ethTypes.Topics chainLog) (protocol.Topics uploadedLog))
              (fun _ =>
                 if negb (bytes_Equal (ethTypes.Data chainLog) (protocol.Data uploadedLog))
                 then Returns (Fail (RiverError Err_PERMISSION_DENIED "Log data mismatch"))
                 else compareLogs (S i) rest uploadedRest)
      end
  end.

Definition VerifyReceipt (ca : chainAuth)
    (userReceipt : protocol.BlockchainTransactionReceipt) : Run bool :=
  andThen (Returns (GetClient (evaluator ca) (protocol.ChainId userReceipt))) (fun client =>
  let txHash := BytesToHash (protocol.TransactionHash userReceipt) in
  match TransactionReceipt client txHash with
  | Fail err =>
      if Is_NotFound err
      then Returns (Fail (RiverError Err_PERMISSION_DENIED "Transaction receipt not found"))
      else Returns (Fail (AsRiverError err (Some Err_DOWNSTREAM_NETWORK_ERROR)))
  | Ok chainReceipt =>
      (* Check if the block number matches *)
      if negb (Uint64 (ethTypes.BlockNumber chainReceipt)
               =? protocol.BlockNumber userReceipt)%Z
      then Returns (Fail (RiverError Err_PERMISSION_DENIED "Block number mismatch"))
      (* Check logs count and match the event log data *)
      else if negb (List.length (ethTypes.Logs chainReceipt)
                    =? List.length (protocol.Logs userReceipt))%nat
      then Returns (Fail (RiverError Err_PERMISSION_DENIED "Log count mismatch: chain:"))
      else
        andThen (compareLogs 0 (ethTypes.Logs chainReceipt) (protocol.Logs userReceipt))
          (fun _ =>
        (* get the transaction *)
        andThen (Returns (TransactionByHash client txHash)) (fun '(tx, isPending) =>
        if isPending : bool
        then Returns (Fail (RiverError Err_PERMISSION_DENIED "Transaction is pending"))
        else
          (* check the to address: [tx.To()[:]] dereferences the pointer *)
          match ethTypes.To tx with
          | None => Panics
          | Some to =>
              if negb (bytes_Equal (fixedBytes to) (protocol.To userReceipt))
              then Returns (Fail (RiverError Err_PERMISSION_DENIED "To address mismatch"))
              else
                (* check the from addresses *)
                andThen (Returns (ethTypes.Sender tx)) (fun sender =>
                if negb (bytes_Equal (fixedBytes sender) (protocol.From userReceipt))
                then Returns (Fail (RiverError Err_PERMISSION_DENIED "From address mismatch"))
                else
                  (* Check the number of confirmations *)
                  match BlockNumber (Client (blockchain ca)) with
                  | Fail err =>
                      Returns (Fail (RiverError Err_PERMISSION_DENIED
                                       "Failed to get latest block number: %v"))
                  | Ok latestBlockNumber =>
                      let confirmations :=
                        sub64 latestBlockNumber (Uint64 (ethTypes.BlockNumber chainReceipt)) in
                      if (confirmations <? 1)%Z
                      then Returns (Fail (RiverError Err_PERMISSION_DENIED
                                            "Transaction has 0 confirmations."))
                      else Returns (Ok true)
                  end)
          end))
  end).

(** ** Vocabulary of the statements *)

(** What one entitlement record evaluates to, in the words of the spec: a
    V1 rule is converted and given to the rule evaluator, a V2 rule is
    given to it directly, a user list passes when it holds the everyone
    address or one of the wallets, an unknown variant counts as false. *)
Definition recordValue (ca : chainAuth) (wallets : list Address) (ent : Entitlement)
    : Result bool :=
  match EntitlementType ent with
  | ModuleTypeRuleEntitlement =>
      match ConvertV1RuleDataToV2 (RuleEntitlement ent) with
      | Ok reV2 => EvaluateRuleData (evaluator ca) wallets reV2
      | Fail err => Fail err
      end
  | ModuleTypeRuleEntitlementV2 =>
      EvaluateRuleData (evaluator ca) wallets (RuleEntitlementV2 ent)
  | ModuleTypeUserEntitlement =>
      Ok (existsb (Address_eqb everyone) (UserEntitlement ent)
          || existsb (fun wallet => existsb (Address_eqb wallet) (UserEntitlement ent)) wallets)
  | ModuleTypeUnknown _ => Ok false
  end.

(** The first value that is not (false, nil), scanning in order. *)
Fixpoint firstTrue (values : list (Result bool)) : Result bool :=
  match values with
  | [] => Ok false
  | Ok true :: _ => Ok true
  | Ok false :: rest => firstTrue rest
  | Fail err :: _ => Fail err
  end.


(** [errors.Unwrap] on the node's wrap. *)
Definition Unwrap (e : error) : option error :=
  match e with
  | Wrapped _ _ _ b => Some b
  | _ => None
  end.

(** A probe result of a member, and of a member whose membership has not
    expired. *)
Definition memberResult (r : membershipStatusCacheResult) : Prop :=
  IsMember (status r) = true.

Definition freshMemberResult (r : membershipStatusCacheResult) : Prop :=
  IsMember (status r) = true /\ IsExpired (status r) = false.

(** The events a run appends to the history. *)
Definition appended (st st' : State) (evs : list Event) : Prop :=
  history st' = history st ++ evs.

(** The condition under which [getLinkedWallets] wants fresh wallets, as
    the spec words it. *)
Definition freshnessSensitive (args : ChainAuthArgs) : Prop :=
  permission args = PermissionRead
  \/ kind args = chainAuthKindIsSpaceMember
  \/ kind args = chainAuthKindIsWalletLinked.


(** A chain log and an uploaded log that agree on every field. *)
Definition sameLog (chainLog : ethTypes.Log)
    (uploadedLog : protocol.BlockchainTransactionReceipt_Log) : Prop :=
  fixedBytes (ethTypes.Address chainLog) = protocol.Address uploadedLog
  /\ map fixedBytes (ethTypes.Topics chainLog) = protocol.Topics uploadedLog
  /\ ethTypes.Data chainLog = protocol.Data uploadedLog.

(** The first field on which a chain log and an uploaded log differ, in
    the order address, number of topics, topics, data, with the message
    that names it. *)
Inductive logMismatch (chainLog : ethTypes.Log)
    (uploadedLog : protocol.BlockchainTransactionReceipt_Log) : string -> Prop :=
| addressMismatch :
    fixedBytes (ethTypes.Address chainLog) <> protocol.Address uploadedLog ->
    logMismatch chainLog uploadedLog "Log address mismatch:"
| topicsCountMismatch :
    fixedBytes (ethTypes.Address chainLog) = protocol.Address uploadedLog ->
    List.length (ethTypes.Topics chainLog) <> List.length (protocol.Topics uploadedLog) ->
    logMismatch chainLog uploadedLog "Log topics count mismatch"
| topicMismatch :
    fixedBytes (ethTypes.Address chainLog) = protocol.Address uploadedLog ->
    List.length (ethTypes.Topics chainLog) = List.length (protocol.Topics uploadedLog) ->
    map fixedBytes (ethTypes.Topics chainLog) <> protocol.Topics uploadedLog ->
    logMismatch chainLog uploadedLog "Log topic mismatch"
| dataMismatch :
    fixedBytes (ethTypes.Address chainLog) = protocol.Address uploadedLog ->
    map fixedBytes (ethTypes.Topics chainLog) = protocol.Topics uploadedLog ->
    ethTypes.Data chainLog <> protocol.Data uploadedLog ->
    logMismatch chainLog uploadedLog "Log data mismatch".

(** Every comparison of [VerifyReceipt] between the uploaded receipt and
    the chain succeeds. *)
Definition comparisonsSucceed (ca : chainAuth)
    (userReceipt : protocol.BlockchainTransactionReceipt) : Prop :=
  exists client chainReceipt tx to sender,
    GetClient (evaluator ca) (protocol.ChainId userReceipt) = Ok client
    /\ TransactionReceipt client (BytesToHash (protocol.TransactionHash userReceipt))
       = Ok chainReceipt
    /\ Uint64 (ethTypes.BlockNumber chainReceipt) = protocol.BlockNumber userReceipt
    /\ Forall2 sameLog (ethTypes.Logs chainReceipt) (protocol.Logs userReceipt)
    /\ TransactionByHash client (BytesToHash (protocol.TransactionHash userReceipt))
       = Ok (tx, false)
    /\ ethTypes.To tx = Some to
    /\ fixedBytes to = protocol.To userReceipt
    /\ ethTypes.Sender tx = Ok sender
    /\ fixedBytes sender = protocol.From userReceipt.

(** [VerifyReceipt] returns (false, err) with a PERMISSION_DENIED error of
    the given message. *)
Definition denied (ca : chainAuth) (userReceipt : protocol.BlockchainTransactionReceipt)
    (msg : string) : Prop :=
  VerifyReceipt ca userReceipt = Returns (Fail (RiverError Err_PERMISSION_DENIED msg)).


(** The number of commas of a text. *)
Fixpoint countCommas (s : string) : nat :=
  match s with
  | EmptyString => 0
  | String c rest => (if Ascii.eqb c "," then 1 else 0) + countCommas rest
  end.

(** A record that is a user list and passes for the wallets. *)
Definition userListPasses (wallets : list Address) (ent : Entitlement) : Prop :=
  EntitlementType ent = ModuleTypeUserEntitlement
  /\ (In everyone (UserEntitlement ent)
      \/ exists wallet, In wallet wallets /\ In wallet (UserEntitlement ent)).

(** A record that is no rule of either version. *)
Definition notRule (ent : Entitlement) : Prop :=
  EntitlementType ent <> ModuleTypeRuleEntitlement
  /\ EntitlementType ent <> ModuleTypeRuleEntitlementV2.

(** What a membership probe of [addresses] in [spaceId] may append to the
    history. *)
Definition probeEvent (spaceId : StreamId) (addresses : list Address) (ev : Event) : Prop :=
  (exists a, In a addresses /\ ev = CallGetMembershipStatus spaceId a)
  \/ ev = Inc membershipCacheHit
  \/ ev = Inc membershipCacheMiss.

(** The uploaded receipt with another transaction hash. *)
Definition withTransactionHash (r : protocol.BlockchainTransactionReceipt)
    (h : list byte) : protocol.BlockchainTransactionReceipt :=
  {| protocol.ChainId := protocol.ChainId r;
     protocol.TransactionHash := h;
     protocol.BlockNumber := protocol.BlockNumber r;
     protocol.To := protocol.To r;
     protocol.From := protocol.From r;
     protocol.Logs := protocol.Logs r |}.


End Model.

Arguments result {V} _.
Arguments insertedAt {V} _.
Arguments positive {V} _.
Arguments entries {V} _.
Arguments positiveTTL {V} _.
Arguments negativeTTL {V} _.
Arguments cacheName {X V} _.
Arguments getCache {X V} _.
Arguments setCache {X V} _.


(* ================================================================== *)
(** * A small world

    A concrete instance of everything the model leaves open, on which the
    statements below are run: rules that carry their own outcome, a hash
    of all-ones bytes (so that every letter of a checksummed address is
    upper case), probes completing in the reverse order of the wallets. *)

Definition exampleExternals : Externals :=
  {| RuleDataV1 := bool;
     RuleDataV2 := bool;
     ConvertV1RuleDataToV2 := fun re => Ok re;
     keccak256 := fun _ => repeat xff 32;
     completionOrder := fun ws => rev ws;
     linkedWalletCacheValue_CacheResult :=
       {| IsAllowed := fun _ => true; Reason := fun _ => EntitlementResultReason_NONE |};
     membershipStatusCacheResult_CacheResult :=
       {| IsAllowed := fun _ => true; Reason := fun _ => EntitlementResultReason_NONE |} |}.

Section SmallWorld.

#[local] Existing Instance exampleExternals.

Definition addr (n : N) : Address := BytesToAddress [byte_of_N n].

Definition alice : Address := addr 161.
Definition bob : Address := addr 178.
Definition carol : Address := addr 195.
Definition dave : Address := addr 212.
Definition erin : Address := addr 225.
Definition spaceOwner : Address := addr 153.

Definition townSquare : StreamId := [x10].
Definition closedTown : StreamId := [x1d].
Definition lobby : StreamId := [x20].
Definition closedLobby : StreamId := [x2d].

Definition member (expired : bool) : MembershipStatus :=
  {| IsMember := true; IsExpired := expired; ExpiryTime := 0 |}.

Definition notMember : MembershipStatus :=
  {| IsMember := false; IsExpired := false; ExpiryTime := 0 |}.

(** A rule that fails, a user list open to everyone, and a legacy rule
    without rule data. *)
Definition failingRule : @Entitlement exampleExternals :=
  {| EntitlementType := ModuleTypeRuleEntitlementV2;
     RuleEntitlement := None;
     RuleEntitlementV2 := Some false;
     UserEntitlement := [] |}.

Definition openList : @Entitlement exampleExternals :=
  {| EntitlementType := ModuleTypeUserEntitlement;
     RuleEntitlement := None;
     RuleEntitlementV2 := None;
     UserEntitlement := [everyone] |}.

Definition legacyRule : @Entitlement exampleExternals :=
  {| EntitlementType := ModuleTypeRuleEntitlement;
     RuleEntitlement := None;
     RuleEntitlementV2 := None;
     UserEntitlement := [] |}.

Definition exampleEntitlements : list (@Entitlement exampleExternals) :=
  [failingRule; openList; legacyRule].

(** The towns whose id ends in 0xd are disabled; bob is banned; alice is a
    member, bob an expired one, carol is none, and asking about anyone else
    fails. *)
Definition exampleSpaceContract : @SpaceContract exampleExternals :=
  {| IsSpaceDisabled := fun spaceId => Ok (bytes_eqb spaceId closedTown);
     IsChannelDisabled := fun _ channelId => Ok (bytes_eqb channelId closedLobby);
     GetSpaceEntitlementsForPermission := fun _ _ => Ok (exampleEntitlements, spaceOwner);
     GetChannelEntitlementsForPermission := fun _ _ _ => Ok (exampleEntitlements, spaceOwner);
     IsBanned := fun _ wallets => Ok (hasWallet bob wallets);
     GetMembershipStatus := fun _ a =>
       if Address_eqb a alice then Ok (member false)
       else if Address_eqb a bob then Ok (member true)
       else if Address_eqb a carol then Ok notMember
       else Fail (External "membership status unavailable") |}.

Definition exampleLog : ethTypes.Log :=
  {| ethTypes.Address := bob;
     ethTypes.Topics := [BytesToHash [x07]];
     ethTypes.Data := [x01; x02] |}.

(** The transaction of every hash: sent by alice to bob, mined in block
    10 with one log. *)
Definition exampleClient : BlockchainClient :=
  {| TransactionReceipt := fun _ =>
       Ok {| ethTypes.BlockNumber := 10; ethTypes.Logs := [exampleLog] |};
     TransactionByHash := fun _ =>
       Ok ({| ethTypes.To := Some bob; ethTypes.ChainId := 1; ethTypes.Sender := Ok alice |},
           false);
     BlockNumber := Ok 12%Z |}.

(** A client whose node cannot be reached. *)
Definition unreachableClient : BlockchainClient :=
  {| TransactionReceipt := fun _ => Fail (External "connection refused");
     TransactionByHash := fun _ => Fail (External "connection refused");
     BlockNumber := Fail (External "connection refused") |}.

(** erin has eleven wallets, dave ten, everyone else two: the principal
    and dave. *)
Definition exampleEvaluator : @Evaluator exampleExternals :=
  {| GetClient := fun chainId =>
       if (chainId =? 1)%Z then Ok exampleClient else Ok unreachableClient;
     EvaluateRuleData := fun _ re =>
       match re with
       | Some outcome => Ok outcome
       | None => Fail (External "no rule data")
       end;
     GetLinkedWallets := fun principal _ =>
       if Address_eqb principal erin then Ok (principal :: repeat carol 10)
       else if Address_eqb principal dave then Ok (principal :: repeat carol 9)
       else if Address_eqb principal carol then Ok [principal]
       else Ok [principal; dave] |}.

(** The authorizer, with the latest block its own chain client reports. *)
Definition exampleChainAuth (latestBlockNumber : Z) : @chainAuth exampleExternals :=
  {| blockchain :=
       {| Client :=
            {| TransactionReceipt := fun _ => Fail NotFound;
               TransactionByHash := fun _ => Fail NotFound;
               BlockNumber := Ok latestBlockNumber |} |};
     evaluator := exampleEvaluator;
     spaceContract := exampleSpaceContract;
     walletLinkContract := Some {| walletLinkAddress := addr 1 |};
     linkedWalletsLimit := DEFAULT_MAX_WALLETS;
     contractCallsTimeoutMs := DEFAULT_REQUEST_TIMEOUT_MS |}.

Definition ca0 : @chainAuth exampleExternals := exampleChainAuth 12.

Definition emptyCache (V : Type) : Cache V :=
  {| entries := []; positiveTTL := 900; negativeTTL := 2 |}.

Definition freshState : @State exampleExternals :=
  {| entitlementCache := emptyCache _;
     membershipCache := emptyCache _;
     entitlementManagerCache := emptyCache _;
     linkedWalletCache := emptyCache _;
     now := 1000;
     history := [] |}.

(** A state whose linked wallet cache holds, since time 500, the wallets
    of alice as they were then. *)
Definition warmState : @State exampleExternals :=
  {| entitlementCache := emptyCache _;
     membershipCache := emptyCache _;
     entitlementManagerCache := emptyCache _;
     linkedWalletCache :=
       {| entries := [(newArgsForLinkedWallets alice,
                       {| result := {| wallets := [alice; carol] |};
                          insertedAt := 500;
                          positive := true |})];
          positiveTTL := 900;
          negativeTTL := 2 |};
     now := 1000;
     history := [] |}.

Definition request (k : chainAuthKind) (spaceId channelId : StreamId)
    (principal : Address) (p : Permission) : ChainAuthArgs :=
  {| kind := k;
     spaceId := spaceId;
     channelId := channelId;
     principal := principal;
     permission := p;
     linkedWallets := EmptyString;
     walletAddress := dave |}.

Definition exampleReceipt (blockNumber : Z) : protocol.BlockchainTransactionReceipt :=
  {| protocol.ChainId := 1;
     protocol.TransactionHash := [x42];
     protocol.BlockNumber := blockNumber;
     protocol.To := fixedBytes bob;
     protocol.From := fixedBytes alice;
     protocol.Logs :=
       [ {| protocol.Address := fixedBytes bob;
            protocol.Topics := [fixedBytes (BytesToHash [x07])];
            protocol.Data := [x01; x02] |} ] |}.

(** The stages of a run of [checkEntitlement] from [freshState]: the state
    after the enabled check, the wallets resolved and the state after
    that, and the two channels and the state after the probes. *)
Definition afterEnabled (args : ChainAuthArgs) : @State exampleExternals :=
  snd (checkStreamIsEnabled ca0 args freshState).

Definition walletsOf (args : ChainAuthArgs) : list Address :=
  match fst (getLinkedWallets ca0 args (afterEnabled args)) with
  | Ok ws => ws
  | Fail _ => []
  end.

Definition afterWallets (args : ChainAuthArgs) : @State exampleExternals :=
  snd (getLinkedWallets ca0 args (afterEnabled args)).

Definition probesOf (args : ChainAuthArgs) : Channels * @State exampleExternals :=
  runMembershipChecks ca0 (spaceId args) (completionOrder (walletsOf args))
    {| isMemberResults := []; isMemberError := [] |} (afterWallets args).

Definition write (principal : Address) : ChainAuthArgs :=
  request chainAuthKindSpace townSquare [] principal PermissionWrite.


(** The authorizer when the node of its own chain cannot be reached. *)
Definition offlineChainAuth : @chainAuth exampleExternals :=
  {| blockchain := {| Client := unreachableClient |};
     evaluator := exampleEvaluator;
     spaceContract := exampleSpaceContract;
     walletLinkContract := Some {| walletLinkAddress := addr 1 |};
     linkedWalletsLimit := DEFAULT_MAX_WALLETS;
     contractCallsTimeoutMs := DEFAULT_REQUEST_TIMEOUT_MS |}.

Definition join (principal : Address) : ChainAuthArgs :=
  request chainAuthKindIsSpaceMember townSquare [] principal PermissionUndefined.


(** The authorizer when the ban list of the space contract cannot be
    read. *)
Definition unsureChainAuth : @chainAuth exampleExternals :=
  {| blockchain := blockchain ca0;
     evaluator := exampleEvaluator;
     spaceContract :=
       {| IsSpaceDisabled := IsSpaceDisabled exampleSpaceContract;
          IsChannelDisabled := IsChannelDisabled exampleSpaceContract;
          GetSpaceEntitlementsForPermission :=
            GetSpaceEntitlementsForPermission exampleSpaceContract;
          GetChannelEntitlementsForPermission :=
            GetChannelEntitlementsForPermission exampleSpaceContract;
          IsBanned := fun _ _ => Fail (External "ban list unavailable");
          GetMembershipStatus := GetMembershipStatus exampleSpaceContract |};
     walletLinkContract := walletLinkContract ca0;
     linkedWalletsLimit := DEFAULT_MAX_WALLETS;
     contractCallsTimeoutMs := DEFAULT_REQUEST_TIMEOUT_MS |}.

(** The example receipt with a transaction hash of 32 bytes. *)
Definition hashedReceipt : protocol.BlockchainTransactionReceipt :=
  withTransactionHash (exampleReceipt 10) (repeat x42 32).


(** A contract creation: a transaction without a to address, mined like
    the example transaction, and the authorizer whose clients serve it. *)
Definition creationTransaction : ethTypes.Transaction :=
  {| ethTypes.To := None; ethTypes.ChainId := 1; ethTypes.Sender := Ok alice |}.

Definition creationClient : BlockchainClient :=
  {| TransactionReceipt := TransactionReceipt exampleClient;
     TransactionByHash := fun _ => Ok (creationTransaction, false);
     BlockNumber := Ok 12%Z |}.

Definition creationChainAuth : @chainAuth exampleExternals :=
  {| blockchain := blockchain ca0;
     evaluator :=
       {| GetClient := fun _ => Ok creationClient;
          EvaluateRuleData := EvaluateRuleData exampleEvaluator;
          GetLinkedWallets := GetLinkedWallets exampleEvaluator |};
     spaceContract := exampleSpaceContract;
     walletLinkContract := walletLinkContract ca0;
     linkedWalletsLimit := DEFAULT_MAX_WALLETS;
     contractCallsTimeoutMs := DEFAULT_REQUEST_TIMEOUT_MS |}.

End SmallWorld.


(* ================================================================== *)
(** * Properties *)

Section Properties.

Context {X : Externals}.

(** ** Strings *)

Lemma append_assoc (a b c : string) :
  String.append (String.append a b) c = String.append a (String.append b c).
Proof.
  induction a as [|ch a IH]; simpl; [reflexivity | now rewrite IH].
Qed.

Lemma append_empty_r (a : string) : String.append a EmptyString = a.
Proof.
  induction a as [|ch a IH]; simpl; [reflexivity | now rewrite IH].
Qed.

Lemma substring_whole (s : string) : String.substring 0 (String.length s) s = s.
Proof.
  induction s as [|ch s IH]; simpl; [reflexivity | now rewrite IH].
Qed.

Lemma substring_none (s : string) : String.substring 0 0 s = EmptyString.
Proof. destruct s; reflexivity. Qed.

(** ** Fixed-size byte arrays *)

Lemma fill_fixedBytes (n : nat) (v : FixedBytes n) : fill n (fixedBytes v) = v.
Proof.
  unfold fixedBytes.
  induction v as [|b n v IH]; [reflexivity|].
  rewrite Vector.to_list_cons. cbn [fill]. now rewrite IH.
Qed.

Lemma SetBytes_fixedBytes (n : nat) (v : FixedBytes n) : SetBytes n (fixedBytes v) = v.
Proof.
  unfold SetBytes.
  assert (L : List.length (fixedBytes v) = n) by apply Vector.length_to_list.
  rewrite L, Nat.ltb_irrefl, L, Nat.sub_diag. simpl.
  apply fill_fixedBytes.
Qed.

Lemma bytes_eqb_eq (a b : list byte) : bytes_eqb a b = true <-> a = b.
Proof.
  revert b; induction a as [|x a IH]; intros [|y b]; simpl; split; intro H;
    try reflexivity; try discriminate.
  - apply andb_true_iff in H as [Hxy Hab].
    apply Byte.byte_dec_bl in Hxy. apply IH in Hab. now subst.
  - injection H as -> ->. apply andb_true_iff; split.
    + now apply Byte.byte_dec_lb.
    + now apply IH.
Qed.

Lemma fixed_eqb_eq (n : nat) (a b : FixedBytes n) : fixed_eqb a b = true <-> a = b.
Proof.
  unfold fixed_eqb, fixedBytes. rewrite bytes_eqb_eq. split.
  - apply Vector.to_list_inj.
  - now intros ->.
Qed.

Lemma Address_eqb_eq (a b : Address) : Address_eqb a b = true <-> a = b.
Proof. apply fixed_eqb_eq. Qed.

Lemma Address_eqb_refl (a : Address) : Address_eqb a a = true.
Proof. now apply Address_eqb_eq. Qed.

(** ** The hexadecimal codec *)

Lemma checksumChar_spelling (hash : list byte) (i : nat) (c : ascii) :
  exists upper, checksumChar hash i c = spelling upper c.
Proof.
  unfold checksumChar, spelling.
  match goal with |- context [(7 <? ?h)%N] => exists (7 <? h)%N end.
  reflexivity.
Qed.

Lemma Hex2Bytes_digits (v : byte) (u1 u2 : bool) (rest : string) :
  Hex2Bytes
    (String (spelling u1 (hexdigit (N.shiftr (Byte.to_N v) 4)))
       (String (spelling u2 (hexdigit (N.land (Byte.to_N v) 15))) rest))
  = v :: Hex2Bytes rest.
Proof.
  destruct v, u1, u2; reflexivity.
Qed.

Lemma Hex2Bytes_checksumLoop (hash : list byte) (bs : list byte) (i : nat) :
  Hex2Bytes (checksumLoop hash i (hexEncode bs)) = bs.
Proof.
  revert i; induction bs as [|v bs IH]; intro i; [reflexivity|].
  cbn [hexEncode checksumLoop].
  destruct (checksumChar_spelling hash i (hexdigit (N.shiftr (Byte.to_N v) 4)))
    as [u1 ->].
  destruct (checksumChar_spelling hash (S i) (hexdigit (N.land (Byte.to_N v) 15)))
    as [u2 ->].
  rewrite Hex2Bytes_digits. now rewrite IH.
Qed.

Lemma length_checksumLoop (hash : list byte) (i : nat) (s : string) :
  String.length (checksumLoop hash i s) = String.length s.
Proof.
  revert i; induction s as [|c s IH]; intro i; simpl; [reflexivity | now rewrite IH].
Qed.

Lemma length_hexEncode (bs : list byte) :
  String.length (hexEncode bs) = 2 * List.length bs.
Proof.
  induction bs as [|v bs IH]; simpl; [reflexivity | rewrite IH; lia].
Qed.

(** [Address.Hex] is "0x" followed by the checksummed digits. *)
Lemma Address_Hex_unfold (a : Address) :
  Address_Hex a =
  String "0" (String "x"
    (checksumLoop (keccak256 (list_byte_of_string (hexEncode (fixedBytes a)))) 2
       (hexEncode (fixedBytes a)))).
Proof.
  unfold Address_Hex, Address_hex.
  cbn [String.append String.length String.substring Nat.sub].
  rewrite Nat.sub_0_r, substring_whole, substring_none. reflexivity.
Qed.

Lemma HexToAddress_Hex (a : Address) : HexToAddress (Address_Hex a) = a.
Proof.
  rewrite Address_Hex_unfold.
  unfold HexToAddress, FromHex.
  cbn [has0xPrefix Ascii.eqb Bool.eqb andb orb String.length String.substring Nat.sub].
  rewrite Nat.sub_0_r, substring_whole.
  rewrite length_checksumLoop, length_hexEncode.
  replace (Nat.odd (2 * List.length (fixedBytes a))) with false.
  - rewrite Hex2Bytes_checksumLoop. apply SetBytes_fixedBytes.
  - symmetry. rewrite <- Nat.negb_even, Nat.even_mul. reflexivity.
Qed.

(** ** Splitting the serialized wallets *)

Lemma Split_comma_field (s t : string) :
  no_comma s = true ->
  Split_comma (String.append s (String "," t)) = s :: Split_comma t.
Proof.
  induction s as [|c s IH]; intro H; [reflexivity|].
  cbn [no_comma] in H. apply andb_true_iff in H as [Hc Hs].
  cbn [String.append Split_comma].
  apply negb_true_iff in Hc. rewrite Hc, (IH Hs). reflexivity.
Qed.

Lemma Split_comma_last (s : string) :
  no_comma s = true -> Split_comma s = [s].
Proof.
  induction s as [|c s IH]; intro H; [reflexivity|].
  cbn [no_comma] in H. apply andb_true_iff in H as [Hc Hs].
  cbn [Split_comma].
  apply negb_true_iff in Hc. rewrite Hc, (IH Hs). reflexivity.
Qed.

Lemma spelling_hexdigit_no_comma (v : byte) (u : bool) :
  Ascii.eqb (spelling u (hexdigit (N.shiftr (Byte.to_N v) 4))) "," = false
  /\ Ascii.eqb (spelling u (hexdigit (N.land (Byte.to_N v) 15))) "," = false.
Proof.
  destruct v, u; split; reflexivity.
Qed.

Lemma no_comma_checksumLoop (hash : list byte) (bs : list byte) (i : nat) :
  no_comma (checksumLoop hash i (hexEncode bs)) = true.
Proof.
  revert i; induction bs as [|v bs IH]; intro i; [reflexivity|].
  cbn [hexEncode checksumLoop no_comma].
  destruct (checksumChar_spelling hash i (hexdigit (N.shiftr (Byte.to_N v) 4)))
    as [u1 ->].
  destruct (checksumChar_spelling hash (S i) (hexdigit (N.land (Byte.to_N v) 15)))
    as [u2 ->].
  rewrite (proj1 (spelling_hexdigit_no_comma v u1)).
  rewrite (proj2 (spelling_hexdigit_no_comma v u2)).
  now rewrite IH.
Qed.

Lemma no_comma_Address_Hex (a : Address) : no_comma (Address_Hex a) = true.
Proof.
  rewrite Address_Hex_unfold. cbn [no_comma Ascii.eqb Bool.eqb negb andb].
  apply no_comma_checksumLoop.
Qed.

Lemma writeWallets_more (ws : list Address) (i : nat) (builder : string) :
  writeWallets (S i) ws builder = String.append builder (moreWallets ws).
Proof.
  revert i builder; induction ws as [|a ws IH]; intros i builder.
  - cbn. now rewrite append_empty_r.
  - cbn [writeWallets moreWallets Nat.ltb Nat.leb]. rewrite IH.
    rewrite !append_assoc. reflexivity.
Qed.

Lemma writeWallets_first (a : Address) (ws : list Address) :
  writeWallets 0 (a :: ws) EmptyString = String.append (Address_Hex a) (moreWallets ws).
Proof.
  cbn [writeWallets Nat.ltb Nat.leb String.append]. apply writeWallets_more.
Qed.

Lemma deserialize_more (a : Address) (ws : list Address) :
  deserializeWallets (String.append (Address_Hex a) (moreWallets ws)) = a :: ws.
Proof.
  unfold deserializeWallets.
  revert a; induction ws as [|b ws IH]; intro a.
  - cbn [moreWallets]. rewrite append_empty_r.
    rewrite Split_comma_last by apply no_comma_Address_Hex.
    cbn [map]. now rewrite HexToAddress_Hex.
  - cbn [moreWallets].
    rewrite Split_comma_field by apply no_comma_Address_Hex.
    cbn [map]. now rewrite HexToAddress_Hex, IH.
Qed.

(** C10. For every non-empty list of wallet addresses, deserializing the
    comma-separated text written by [withLinkedWallets] gives back the list,
    in the same order; for the empty list it gives the one-element list
    holding the zero address. *)
Theorem deserializeWallets_withLinkedWallets (args : ChainAuthArgs) :
  (forall ws : list Address,
      ws <> [] ->
      deserializeWallets (linkedWallets (withLinkedWallets args ws)) = ws)
  /\ deserializeWallets (linkedWallets (withLinkedWallets args [])) = [zeroAddress]
  /\ deserializeWallets (linkedWallets (withLinkedWallets args [])) <> [].
Proof.
  split; [|split].
  - intros [|a ws] H; [contradiction|].
    cbn [withLinkedWallets linkedWallets].
    rewrite writeWallets_first. apply deserialize_more.
  - reflexivity.
  - discriminate.
Qed.


(** ** Running programs *)

Lemma bind_Ok {S A B : Type} (m : Prog S A) (k : A -> Prog S B) (st st' : S) (a : A) :
  m st = (Ok a, st') -> bind m k st = k a st'.
Proof. intro H. unfold bind. now rewrite H. Qed.

Lemma bind_Fail {S A B : Type} (m : Prog S A) (k : A -> Prog S B) (st st' : S) (e : error) :
  m st = (Fail e, st') -> bind m k st = (Fail e, st').
Proof. intro H. unfold bind. now rewrite H. Qed.

Lemma orWrap_Ok {S A : Type} (m : Prog S A) (w : error -> error) (st st' : S) (a : A) :
  m st = (Ok a, st') -> orWrap m w st = (Ok a, st').
Proof. intro H. unfold orWrap. now rewrite H. Qed.

Lemma orWrap_Fail {S A : Type} (m : Prog S A) (w : error -> error) (st st' : S) (e : error) :
  m st = (Fail e, st') -> orWrap m w st = (Fail (w e), st').
Proof. intro H. unfold orWrap. now rewrite H. Qed.

(** ** Wallet membership *)

Lemma hasWallet_In (a : Address) (ws : list Address) :
  hasWallet a ws = true <-> In a ws.
Proof.
  induction ws as [|w ws IH]; simpl.
  - split; [discriminate | contradiction].
  - destruct (Address_eqb w a) eqn:E.
    + apply Address_eqb_eq in E. split; [now left | reflexivity].
    + rewrite IH. split; [now right|].
      intros [H|H]; [|exact H].
      subst. rewrite Address_eqb_refl in E. discriminate.
Qed.

Lemma hasWallet_not_In (a : Address) (ws : list Address) :
  hasWallet a ws = false <-> ~ In a ws.
Proof.
  rewrite <- hasWallet_In. destruct (hasWallet a ws); split; congruence.
Qed.

(** ** Owner and ban (evaluateWithEntitlements) *)

(** C1. When the deserialized wallets hold the owner, the answer is
    (true, nil) and nothing is called, whatever the entitlements and
    whatever IsBanned would answer; when they do not and IsBanned answers
    true, the answer is (false, nil) after that single call, whatever the
    entitlements. *)
Theorem evaluateWithEntitlements_owner_before_ban
    (ca : chainAuth) (args : ChainAuthArgs) (owner : Address)
    (entitlements : list Entitlement) (st : State) :
  let wallets := deserializeWallets (linkedWallets args) in
  (In owner wallets ->
     evaluateWithEntitlements ca args owner entitlements st = (Ok true, st))
  /\ (~ In owner wallets ->
      IsBanned (spaceContract ca) (spaceId args) wallets = Ok true ->
      evaluateWithEntitlements ca args owner entitlements st
      = (Ok false, record (CallIsBanned (spaceId args) wallets) st)).
Proof.
  intro wallets. unfold evaluateWithEntitlements. fold wallets. split.
  - intro Hin. apply hasWallet_In in Hin. rewrite Hin. reflexivity.
  - intros Hout Hban. apply hasWallet_not_In in Hout. rewrite Hout.
    unfold bind, orWrap, call. rewrite Hban. reflexivity.
Qed.


(** ** Entitlement records (evaluateEntitlementData) *)

Lemma hasWallet_existsb (user : Address) (wallets : list Address) :
  hasWallet user wallets = existsb (fun wallet => Address_eqb wallet user) wallets.
Proof.
  induction wallets as [|w ws IH]; simpl; [reflexivity|].
  destruct (Address_eqb w user); [reflexivity | exact IH].
Qed.

Lemma userEntitlementPasses_In (wallets users : list Address) :
  userEntitlementPasses wallets users = true
  <-> In everyone users \/ exists wallet, In wallet wallets /\ In wallet users.
Proof.
  induction users as [|u us IH]; simpl.
  - split; [discriminate|]. intros [[]|(w & _ & [])].
  - destruct (Address_eqb u everyone) eqn:Eev.
    + apply Address_eqb_eq in Eev. split; [|reflexivity]. intros _. left. now left.
    + destruct (hasWallet u wallets) eqn:Ehas.
      * apply hasWallet_In in Ehas. split; [|reflexivity].
        intros _. right. exists u. split; [exact Ehas | now left].
      * apply hasWallet_not_In in Ehas. rewrite IH. split.
        -- intros [H|(w & Hw & Hu)]; [left; now right|].
           right. exists w. split; [exact Hw | now right].
        -- intros [[H|H]|(w & Hw & [H|H])].
           ++ subst. rewrite Address_eqb_refl in Eev. discriminate.
           ++ now left.
           ++ subst. contradiction.
           ++ right. now exists w.
Qed.

Lemma existsb_Address_In (a : Address) (l : list Address) :
  existsb (Address_eqb a) l = true <-> In a l.
Proof.
  rewrite existsb_exists. split.
  - intros (x & Hx & E). apply Address_eqb_eq in E. now subst.
  - intro H. exists a. split; [exact H | apply Address_eqb_refl].
Qed.

(** The loops over the users and the wallets compute the user-list clause
    of the spec. *)
Lemma userEntitlementPasses_spec (wallets users : list Address) :
  userEntitlementPasses wallets users
  = existsb (Address_eqb everyone) users
    || existsb (fun wallet => existsb (Address_eqb wallet) users) wallets.
Proof.
  apply eq_true_iff_eq.
  rewrite userEntitlementPasses_In, orb_true_iff, existsb_Address_In, existsb_exists.
  split; (intros [H|(w & Hw & Hu)]; [now left | right; exists w; split; [exact Hw|]]).
  - now apply existsb_Address_In.
  - now apply existsb_Address_In in Hu.
Qed.

Lemma evaluateEntitlements_firstTrue (ca : chainAuth) (wallets : list Address)
    (entitlements : list Entitlement) (st : State) :
  fst (evaluateEntitlements ca wallets entitlements st)
  = firstTrue (map (recordValue ca wallets) entitlements).
Proof.
  revert st; induction entitlements as [|ent rest IH]; intro st; [reflexivity|].
  cbn [evaluateEntitlements map firstTrue]. unfold recordValue at 1.
  destruct (EntitlementType ent).
  - unfold bind, call.
    destruct (ConvertV1RuleDataToV2 (RuleEntitlement ent)) as [reV2|err]; [|reflexivity].
    destruct (EvaluateRuleData (evaluator ca) wallets reV2) as [[|]|err];
      [reflexivity | apply IH | reflexivity].
  - unfold bind, call.
    destruct (EvaluateRuleData (evaluator ca) wallets (RuleEntitlementV2 ent)) as [[|]|err];
      [reflexivity | apply IH | reflexivity].
  - rewrite <- userEntitlementPasses_spec.
    destruct (userEntitlementPasses wallets (UserEntitlement ent)); [reflexivity | apply IH].
  - apply IH.
Qed.

(** Once a record has evaluated to true the records after it are not
    looked at: neither the answer nor the calls made depend on them. *)
Lemma evaluateEntitlements_short_circuit (ca : chainAuth) (wallets : list Address)
    (before after : list Entitlement) (ent : Entitlement) (st : State) :
  Forall (fun e => recordValue ca wallets e = Ok false) before ->
  recordValue ca wallets ent = Ok true ->
  evaluateEntitlements ca wallets (before ++ ent :: after) st
  = evaluateEntitlements ca wallets (before ++ [ent]) st.
Proof.
  intros Hbefore Hent. revert st.
  induction Hbefore as [|e before He _ IH]; intro st.
  - cbn [app evaluateEntitlements]. unfold recordValue in Hent.
    destruct (EntitlementType ent).
    + unfold bind, call in *.
      destruct (ConvertV1RuleDataToV2 (RuleEntitlement ent)) as [reV2|err]; [|discriminate].
      rewrite Hent. reflexivity.
    + unfold bind, call. rewrite Hent. reflexivity.
    + rewrite <- userEntitlementPasses_spec in Hent. injection Hent as ->. reflexivity.
    + discriminate.
  - cbn [app evaluateEntitlements]. unfold recordValue in He.
    destruct (EntitlementType e).
    + unfold bind, call in *.
      destruct (ConvertV1RuleDataToV2 (RuleEntitlement e)) as [reV2|err]; [|discriminate].
      rewrite He. apply IH.
    + unfold bind, call. rewrite He. apply IH.
    + rewrite <- userEntitlementPasses_spec in He. injection He as ->. apply IH.
    + apply IH.
Qed.

Lemma firstTrue_true (values : list (Result bool)) :
  firstTrue values = Ok true
  <-> exists before after,
        values = before ++ Ok true :: after /\ Forall (fun v => v = Ok false) before.
Proof.
  induction values as [|v values IH].
  - split; [discriminate|]. intros ([|? ?] & after & E & _); discriminate.
  - destruct v as [[|]|err]; cbn [firstTrue].
    + split; [|reflexivity]. intros _. exists [], values. split; [reflexivity | constructor].
    + rewrite IH. split.
      * intros (before & after & -> & F). exists (Ok false :: before), after.
        split; [reflexivity | now constructor].
      * intros ([|v before] & after & E & F); [discriminate|].
        injection E as <- ->. inversion F; subst. now exists before, after.
    + split; [discriminate|].
      intros ([|v before] & after & E & F); [discriminate|].
      injection E as <- ->. inversion F; discriminate.
Qed.

Lemma firstTrue_Fail (values : list (Result bool)) (err : error) :
  firstTrue values = Fail err
  <-> exists before after,
        values = before ++ Fail err :: after /\ Forall (fun v => v = Ok false) before.
Proof.
  induction values as [|v values IH].
  - split; [discriminate|]. intros ([|? ?] & after & E & _); discriminate.
  - destruct v as [[|]|e]; cbn [firstTrue].
    + split; [discriminate|].
      intros ([|v before] & after & E & F); [discriminate|].
      injection E as <- ->. inversion F; discriminate.
    + rewrite IH. split.
      * intros (before & after & -> & F). exists (Ok false :: before), after.
        split; [reflexivity | now constructor].
      * intros ([|v before] & after & E & F); [discriminate|].
        injection E as <- ->. inversion F; subst. now exists before, after.
    + split.
      * intros [= ->]. exists [], values. split; [reflexivity | constructor].
      * intros ([|v before] & after & E & F).
        -- now injection E as -> _.
        -- injection E as <- ->. inversion F; discriminate.
Qed.

Lemma firstTrue_false (values : list (Result bool)) :
  firstTrue values = Ok false <-> Forall (fun v => v = Ok false) values.
Proof.
  induction values as [|v values IH]; [split; [constructor | reflexivity]|].
  destruct v as [[|]|e]; cbn [firstTrue].
  - split; [discriminate | intro F; inversion F; discriminate].
  - rewrite IH. split; [now constructor | intro F; now inversion F].
  - split; [discriminate | intro F; inversion F; discriminate].
Qed.

Lemma map_eq_app_cons {A B : Type} (f : A -> B) (l : list A) (before after : list B) (b : B) :
  map f l = before ++ b :: after ->
  exists l1 a l2, l = l1 ++ a :: l2 /\ map f l1 = before /\ f a = b /\ map f l2 = after.
Proof.
  revert before; induction l as [|x l IH]; intros before E.
  - destruct before; discriminate.
  - destruct before as [|b0 before]; cbn in E.
    + injection E as E1 E2. exists [], x, l. auto.
    + injection E as E1 E2. destruct (IH _ E2) as (l1 & a & l2 & -> & M1 & Ma & M2).
      exists (x :: l1), a, l2. cbn. rewrite M1, E1. auto.
Qed.

Lemma Forall_map_eq {A B : Type} (f : A -> B) (b : B) (l : list A) :
  Forall (fun v => v = b) (map f l) <-> Forall (fun a => f a = b) l.
Proof. apply Forall_map. Qed.


Lemma everyone_bytes : fixedBytes everyone = repeat x00 19 ++ [x01].
Proof. reflexivity. Qed.

(** C2. [evaluateEntitlementData] scans the records in order and answers
    with the first one that is not false: it returns true exactly when some
    record evaluates to true and every record before it to false, it then
    ignores the records after it, it returns false when every record
    evaluates to false, and it fails with the first error met before any
    true record.  A record evaluates as [recordValue] says (V1 rules
    converted then given to the rule evaluator, V2 rules given directly,
    unknown variants false); a user list is true exactly when it holds the
    everyone address 0x...01 or one of the deserialized wallets. *)
Theorem evaluateEntitlementData_first_true
    (ca : chainAuth) (entitlements : list Entitlement) (args : ChainAuthArgs) (st : State) :
  let wallets := deserializeWallets (linkedWallets args) in
  let value := recordValue ca wallets in
  let answer := fst (evaluateEntitlementData ca entitlements args st) in
  answer = firstTrue (map value entitlements)
  /\ (answer = Ok true <->
      exists before ent after,
        entitlements = before ++ ent :: after
        /\ Forall (fun e => value e = Ok false) before
        /\ value ent = Ok true)
  /\ (answer = Ok false <-> Forall (fun e => value e = Ok false) entitlements)
  /\ (forall err,
        answer = Fail err <->
        exists before ent after,
          entitlements = before ++ ent :: after
          /\ Forall (fun e => value e = Ok false) before
          /\ value ent = Fail err)
  /\ (forall before ent after,
        entitlements = before ++ ent :: after ->
        Forall (fun e => value e = Ok false) before ->
        value ent = Ok true ->
        evaluateEntitlementData ca entitlements args st
        = evaluateEntitlementData ca (before ++ [ent]) args st)
  /\ (forall ent,
        EntitlementType ent = ModuleTypeUserEntitlement ->
        exists b,
          value ent = Ok b
          /\ (b = true <->
              In everyone (UserEntitlement ent)
              \/ exists wallet, In wallet wallets /\ In wallet (UserEntitlement ent)))
  /\ fixedBytes everyone = repeat x00 19 ++ [x01].
Proof.
  intros wallets value answer.
  assert (Hscan : answer = firstTrue (map value entitlements))
    by apply evaluateEntitlements_firstTrue.
  split; [exact Hscan|]. rewrite Hscan. clear Hscan answer.
  split; [|split; [|split; [|split; [|split]]]].
  - rewrite firstTrue_true. split.
    + intros (vb & va & E & F). apply map_eq_app_cons in E.
      destruct E as (before & ent & after & -> & <- & Hent & _).
      exists before, ent, after. split; [reflexivity|]. split; [|exact Hent].
      exact (proj1 (Forall_map_eq value (Ok false) before) F).
    + intros (before & ent & after & -> & F & Hent).
      exists (map value before), (map value after). split.
      * rewrite map_app. cbn [map]. now rewrite Hent.
      * exact (proj2 (Forall_map_eq value (Ok false) before) F).
  - rewrite firstTrue_false. apply Forall_map_eq.
  - intro err. rewrite firstTrue_Fail. split.
    + intros (vb & va & E & F). apply map_eq_app_cons in E.
      destruct E as (before & ent & after & -> & <- & Hent & _).
      exists before, ent, after. split; [reflexivity|]. split; [|exact Hent].
      exact (proj1 (Forall_map_eq value (Ok false) before) F).
    + intros (before & ent & after & -> & F & Hent).
      exists (map value before), (map value after). split.
      * rewrite map_app. cbn [map]. now rewrite Hent.
      * exact (proj2 (Forall_map_eq value (Ok false) before) F).
  - intros before ent after -> F Hent. unfold evaluateEntitlementData.
    now apply evaluateEntitlements_short_circuit.
  - intros ent Hty. unfold value, recordValue. rewrite Hty.
    rewrite <- userEntitlementPasses_spec.
    exists (userEntitlementPasses wallets (UserEntitlement ent)).
    split; [reflexivity | apply userEntitlementPasses_In].
  - exact everyone_bytes.
Qed.


(** ** The stages of checkEntitlement *)

Lemma chainAuthKind_eqb_eq (a b : chainAuthKind) : chainAuthKind_eqb a b = true <-> a = b.
Proof. destruct a, b; simpl; split; intro H; congruence. Qed.

Lemma chainAuthKind_eqb_neq (a b : chainAuthKind) : chainAuthKind_eqb a b = false <-> a <> b.
Proof. destruct a, b; simpl; split; intro H; congruence. Qed.

(** Lines 1043-1048: a stream that is not enabled ends the call. *)
Lemma checkEntitlement_not_enabled (ca : chainAuth) (args : ChainAuthArgs)
    (st st1 : State) (reason : EntitlementResultReason) :
  checkStreamIsEnabled ca args st = (Ok (false, reason), st1) ->
  checkEntitlement ca args st = (Ok (mkBool false reason), st1).
Proof.
  intro H. unfold checkEntitlement. rewrite (bind_Ok _ _ _ _ _ H). reflexivity.
Qed.

(** Lines 1056-1064: the answer for [IsWalletLinked]. *)
Lemma checkEntitlement_wallet_linked (ca : chainAuth) (args : ChainAuthArgs)
    (st st1 st2 : State) (reason : EntitlementResultReason) (wallets : list Address) :
  checkStreamIsEnabled ca args st = (Ok (true, reason), st1) ->
  getLinkedWallets ca args st1 = (Ok wallets, st2) ->
  kind args = chainAuthKindIsWalletLinked ->
  checkEntitlement ca args st
  = (Ok (if hasWallet (walletAddress args) wallets
         then mkBool true EntitlementResultReason_NONE
         else mkBool false EntitlementResultReason_WALLET_NOT_LINKED), st2).
Proof.
  intros He Hw Hk. unfold checkEntitlement.
  rewrite (bind_Ok _ _ _ _ _ He). cbn [negb].
  rewrite (bind_Ok _ _ _ _ _ Hw). rewrite Hk. cbn [chainAuthKind_eqb].
  destruct (hasWallet (walletAddress args) wallets); reflexivity.
Qed.

(** Lines 1066-1071: the guard on the number of wallets. *)
Lemma checkEntitlement_too_many_wallets (ca : chainAuth) (args : ChainAuthArgs)
    (st st1 st2 : State) (reason : EntitlementResultReason) (wallets : list Address) :
  checkStreamIsEnabled ca args st = (Ok (true, reason), st1) ->
  getLinkedWallets ca args st1 = (Ok wallets, st2) ->
  kind args <> chainAuthKindIsWalletLinked ->
  (linkedWalletsLimit ca < Z.of_nat (List.length wallets))%Z ->
  checkEntitlement ca args st
  = (Fail (RiverError Err_RESOURCE_EXHAUSTED "too many wallets linked to the root key"), st2).
Proof.
  intros He Hw Hk Hlen. unfold checkEntitlement.
  rewrite (bind_Ok _ _ _ _ _ He). cbn [negb].
  rewrite (bind_Ok _ _ _ _ _ Hw).
  apply chainAuthKind_eqb_neq in Hk. rewrite Hk.
  apply Z.ltb_lt in Hlen. rewrite Hlen. reflexivity.
Qed.

(** Lines 1073-1178: with the wallets within the limit the call goes on to
    the membership probe. *)
Lemma checkEntitlement_probe (ca : chainAuth) (args : ChainAuthArgs)
    (st st1 st2 : State) (reason : EntitlementResultReason) (wallets : list Address) :
  checkStreamIsEnabled ca args st = (Ok (true, reason), st1) ->
  getLinkedWallets ca args st1 = (Ok wallets, st2) ->
  kind args <> chainAuthKindIsWalletLinked ->
  (Z.of_nat (List.length wallets) <= linkedWalletsLimit ca)%Z ->
  checkEntitlement ca args st
  = probeMembership ca (withLinkedWallets args wallets) wallets st2.
Proof.
  intros He Hw Hk Hlen. unfold checkEntitlement.
  rewrite (bind_Ok _ _ _ _ _ He). cbn [negb].
  rewrite (bind_Ok _ _ _ _ _ Hw).
  apply chainAuthKind_eqb_neq in Hk. rewrite Hk.
  apply Z.ltb_ge in Hlen. rewrite Hlen. reflexivity.
Qed.

(** ** Reading the two channels *)

Lemma receiveResults_no_member (results : list membershipStatusCacheResult)
    (isMember isExpired : bool) :
  Forall (fun r => ~ memberResult r) results ->
  receiveResults results isMember isExpired = (isMember, isExpired).
Proof.
  intro F. revert isMember isExpired.
  induction F as [|r results Hr _ IH]; intros m e; [reflexivity|].
  cbn [receiveResults]. unfold memberResult in Hr.
  destruct (IsMember (status r)); [now contradiction Hr | apply IH].
Qed.

Lemma receiveResults_fresh (results : list membershipStatusCacheResult)
    (isMember isExpired : bool) :
  Exists freshMemberResult results ->
  receiveResults results isMember isExpired = (true, false).
Proof.
  intro E. revert isMember isExpired.
  induction E as [r results [Hm He]|r results _ IH]; intros m e; cbn [receiveResults].
  - rewrite Hm, He. reflexivity.
  - destruct (IsMember (status r)); [|apply IH].
    destruct (IsExpired (status r)); [apply IH | reflexivity].
Qed.

Lemma receiveResults_all_expired (results : list membershipStatusCacheResult)
    (isMember : bool) :
  Forall (fun r => memberResult r -> IsExpired (status r) = true) results ->
  receiveResults results isMember true
  = (isMember || existsb (fun r => IsMember (status r)) results, true).
Proof.
  intro F. revert isMember.
  induction F as [|r results Hr _ IH]; intro m; cbn [receiveResults existsb].
  - now rewrite orb_false_r.
  - unfold memberResult in Hr. destruct (IsMember (status r)).
    + rewrite (Hr eq_refl). cbn [negb]. rewrite IH. cbn. now rewrite orb_true_r.
    + rewrite IH. reflexivity.
Qed.

Lemma existsb_member (results : list membershipStatusCacheResult) :
  existsb (fun r => IsMember (status r)) results = true <-> Exists memberResult results.
Proof.
  rewrite existsb_exists, Exists_exists. reflexivity.
Qed.

Lemma receiveErrors_Some (errors : list error) (e : error) :
  receiveErrors errors (Some e) = Some (fold_left Errorf2 errors e).
Proof.
  revert e; induction errors as [|err errors IH]; intro e; [reflexivity|].
  cbn [receiveErrors fold_left]. apply IH.
Qed.

Lemma receiveErrors_None (errors : list error) :
  receiveErrors errors None
  = match errors with
    | [] => None
    | err :: rest => Some (fold_left Errorf2 rest err)
    end.
Proof.
  destruct errors as [|err rest]; [reflexivity|].
  cbn [receiveErrors]. apply receiveErrors_Some.
Qed.

(** With a member among the results, the errors sent by the probes have no
    part in the decision. *)
Lemma decideMembership_ignores_errors (ca : chainAuth) (args : ChainAuthArgs)
    (results : list membershipStatusCacheResult) (errors errors' : list error) (st : State) :
  Exists memberResult results ->
  decideMembership ca args {| isMemberResults := results; isMemberError := errors |} st
  = decideMembership ca args {| isMemberResults := results; isMemberError := errors' |} st.
Proof.
  intro E. unfold decideMembership. cbn [isMemberResults isMemberError].
  destruct (receiveResults results false true) as [isMember isExpired] eqn:R.
  destruct isMember; [reflexivity|]. exfalso.
  assert (H : forall rs m e, Exists memberResult rs -> fst (receiveResults rs m e) = true).
  { clear. intros rs m e E. revert m e.
    induction E as [r rs Hm|r rs _ IH]; intros m e; cbn [receiveResults].
    - unfold memberResult in Hm. rewrite Hm.
      destruct (IsExpired (status r)); cbn [negb]; [|reflexivity].
      clear. revert e. induction rs as [|r' rs IH]; intro e; [reflexivity|].
      cbn [receiveResults]. destruct (IsMember (status r')).
      + destruct (IsExpired (status r')); [apply IH | reflexivity].
      + apply IH.
    - destruct (IsMember (status r)); [|apply IH].
      destruct (IsExpired (status r)); [apply IH | reflexivity]. }
  specialize (H results false true E). rewrite R in H. discriminate.
Qed.


(** The decision on any content of the two channels. *)
Lemma decideMembership_outcome (ca : chainAuth) (args : ChainAuthArgs)
    (chans : Channels) (st : State) :
  let results := isMemberResults chans in
  let errors := isMemberError chans in
  (Forall (fun r => ~ memberResult r) results ->
   forall err rest, errors = err :: rest ->
   exists e,
     decideMembership ca args chans st = (Fail e, st)
     /\ errCode e = Err_CANNOT_CHECK_ENTITLEMENTS
     /\ Unwrap e = Some (fold_left Errorf2 rest err))
  /\ (Forall (fun r => ~ memberResult r) results ->
      errors = [] ->
      decideMembership ca args chans st
      = (Ok (mkBool false EntitlementResultReason_MEMBERSHIP), st))
  /\ (Exists memberResult results ->
      Forall (fun r => memberResult r -> IsExpired (status r) = true) results ->
      decideMembership ca args chans st
      = (Ok (mkBool false EntitlementResultReason_MEMBERSHIP_EXPIRED), st))
  /\ (Exists freshMemberResult results ->
      decideMembership ca args chans st
      = ('(result, reason) <- areLinkedWalletsEntitled ca args ;;
         ret (mkBool result reason)) st).
Proof.
  intros results errors. unfold decideMembership. fold results errors.
  split; [|split; [|split]].
  - intros Hnone err rest Herr.
    rewrite (receiveResults_no_member _ _ _ Hnone). cbn [negb].
    rewrite receiveErrors_None, Herr.
    eexists. split; [reflexivity|]. split; reflexivity.
  - intros Hnone Herr.
    rewrite (receiveResults_no_member _ _ _ Hnone). cbn [negb].
    rewrite receiveErrors_None, Herr. reflexivity.
  - intros Hsome Hexp.
    rewrite (receiveResults_all_expired _ _ Hexp).
    apply existsb_member in Hsome. rewrite Hsome. reflexivity.
  - intro Hfresh.
    rewrite (receiveResults_fresh _ _ _ Hfresh). reflexivity.
Qed.


(** C3. Once the probes of [checkEntitlement] have completed: with no
    member among the results and at least one error, the call fails with a
    CANNOT_CHECK_ENTITLEMENTS error wrapping all the errors; with no member
    and no error it returns (false, MEMBERSHIP); with members that are all
    expired it returns (false, MEMBERSHIP_EXPIRED); with a member that is
    not expired it goes on to the entitlement evaluation; and as soon as a
    result is a member, the errors have no part in the outcome. *)
Theorem checkEntitlement_membership_outcome
    (ca : chainAuth) (args : ChainAuthArgs) (st st1 st2 st3 : State)
    (reason : EntitlementResultReason) (wallets : list Address) (chans : Channels) :
  checkStreamIsEnabled ca args st = (Ok (true, reason), st1) ->
  getLinkedWallets ca args st1 = (Ok wallets, st2) ->
  kind args <> chainAuthKindIsWalletLinked ->
  (Z.of_nat (List.length wallets) <= linkedWalletsLimit ca)%Z ->
  runMembershipChecks ca (spaceId args) (completionOrder wallets)
    {| isMemberResults := []; isMemberError := [] |} st2 = (chans, st3) ->
  let results := isMemberResults chans in
  let errors := isMemberError chans in
  let args' := withLinkedWallets args wallets in
  checkEntitlement ca args st = decideMembership ca args' chans st3
  /\ (Forall (fun r => ~ memberResult r) results ->
      forall err rest, errors = err :: rest ->
      exists e,
        checkEntitlement ca args st = (Fail e, st3)
        /\ errCode e = Err_CANNOT_CHECK_ENTITLEMENTS
        /\ Unwrap e = Some (fold_left Errorf2 rest err))
  /\ (Forall (fun r => ~ memberResult r) results ->
      errors = [] ->
      checkEntitlement ca args st
      = (Ok (mkBool false EntitlementResultReason_MEMBERSHIP), st3))
  /\ (Exists memberResult results ->
      Forall (fun r => memberResult r -> IsExpired (status r) = true) results ->
      checkEntitlement ca args st
      = (Ok (mkBool false EntitlementResultReason_MEMBERSHIP_EXPIRED), st3))
  /\ (Exists freshMemberResult results ->
      checkEntitlement ca args st
      = ('(result, reason) <- areLinkedWalletsEntitled ca args' ;;
         ret (mkBool result reason)) st3)
  /\ (Exists memberResult results ->
      forall errors',
        decideMembership ca args' chans st3
        = decideMembership ca args'
            {| isMemberResults := results; isMemberError := errors' |} st3).
Proof.
  intros He Hw Hk Hlen Hrun results errors args'.
  assert (Hdecide : checkEntitlement ca args st = decideMembership ca args' chans st3).
  { rewrite (checkEntitlement_probe _ _ _ _ _ _ _ He Hw Hk Hlen).
    unfold probeMembership. cbn [withLinkedWallets spaceId].
    rewrite Hrun. reflexivity. }
  split; [exact Hdecide|]. rewrite Hdecide.
  destruct (decideMembership_outcome ca args' chans st3) as (Ha & Hb & Hc & Hd).
  split; [exact Ha|]. split; [exact Hb|]. split; [exact Hc|]. split; [exact Hd|].
  - intros Hsome errors'.
    destruct chans as [rs es]. apply decideMembership_ignores_errors. exact Hsome.
Qed.


(** ** The caches *)

Lemma bytes_eqb_refl (a : list byte) : bytes_eqb a a = true.
Proof. now apply bytes_eqb_eq. Qed.

Lemma Permission_eqb_eq (a b : Permission) : Permission_eqb a b = true <-> a = b.
Proof.
  destruct a, b; simpl; split; intro H; try congruence.
  - apply N.eqb_eq in H. now subst.
  - injection H as ->. apply N.eqb_refl.
Qed.

Lemma ChainAuthArgs_eqb_refl (a : ChainAuthArgs) : ChainAuthArgs_eqb a a = true.
Proof.
  unfold ChainAuthArgs_eqb.
  rewrite !bytes_eqb_refl, !Address_eqb_refl, String.eqb_refl.
  rewrite (proj2 (chainAuthKind_eqb_eq _ _) eq_refl).
  rewrite (proj2 (Permission_eqb_eq _ _) eq_refl). reflexivity.
Qed.

Lemma findEntry_removeEntry {V : Type} (key : ChainAuthArgs)
    (es : list (ChainAuthArgs * CachedValue V)) :
  findEntry key (removeEntry key es) = None.
Proof.
  induction es as [|[k v] es IH]; [reflexivity|].
  cbn [removeEntry filter fst]. destruct (ChainAuthArgs_eqb key k) eqn:E; cbn [negb].
  - exact IH.
  - cbn [findEntry]. rewrite E. exact IH.
Qed.

Lemma executeUsingCache_hit {V : Type} `{CacheResult V} (c : CacheRef V)
    (key : ChainAuthArgs) (onMiss : ChainAuthArgs -> M V) (st : State) (v : CachedValue V) :
  lookupFresh (getCache c st) (now st) key = Some v ->
  executeUsingCache c key onMiss st = (Ok (result v, true), st).
Proof. intro L. unfold executeUsingCache. now rewrite L. Qed.

Lemma executeUsingCache_miss_Fail {V : Type} `{CacheResult V} (c : CacheRef V)
    (key : ChainAuthArgs) (onMiss : ChainAuthArgs -> M V) (st st' : State) (e : error) :
  lookupFresh (getCache c st) (now st) key = None ->
  onMiss key st = (Fail e, st') ->
  executeUsingCache c key onMiss st = (Fail e, st').
Proof. intros L R. unfold executeUsingCache. now rewrite L, R. Qed.

Lemma executeUsingCache_miss_Ok {V : Type} `{CacheResult V} (c : CacheRef V)
    (key : ChainAuthArgs) (onMiss : ChainAuthArgs -> M V) (st st' : State) (r : V) :
  lookupFresh (getCache c st) (now st) key = None ->
  onMiss key st = (Ok r, st') ->
  executeUsingCache c key onMiss st
  = (Ok (r, false),
     setCache c
       (withEntries (getCache c st')
          ((key, {| result := r; insertedAt := now st'; positive := IsAllowed r |})
           :: removeEntry key (entries (getCache c st')))) st').
Proof. intros L R. unfold executeUsingCache. now rewrite L, R. Qed.

(** ** Disabled streams *)

(** A fresh cached answer is served without asking the contract. *)
Lemma checkSpaceEnabled_cached (ca : chainAuth) (spaceId : StreamId) (st : State)
    (v : CachedValue boolCacheResult) :
  lookupFresh (entitlementCache st) (now st) (newArgsForEnabledSpace spaceId) = Some v ->
  checkSpaceEnabled ca spaceId st
  = (Ok (bcr_allowed (result v), bcr_reason (result v)),
     record (Inc isSpaceEnabledCacheHit) st).
Proof.
  intro L. unfold checkSpaceEnabled.
  rewrite (bind_Ok _ _ _ _ _ (executeUsingCache_hit entitlementCacheRef _ _ st v L)).
  reflexivity.
Qed.

(** A fresh cached answer "not enabled" ends the call in the same way,
    without asking the contract. *)
Lemma checkEntitlement_disabled_cached (ca : chainAuth) (args : ChainAuthArgs) (st : State)
    (v : CachedValue boolCacheResult) :
  kind args = chainAuthKindSpace \/ kind args = chainAuthKindIsSpaceMember ->
  lookupFresh (entitlementCache st) (now st) (newArgsForEnabledSpace (spaceId args)) = Some v ->
  bcr_allowed (result v) = false ->
  checkEntitlement ca args st
  = (Ok (mkBool false (bcr_reason (result v))), record (Inc isSpaceEnabledCacheHit) st).
Proof.
  intros Hk L Hv. apply checkEntitlement_not_enabled.
  assert (C : checkStreamIsEnabled ca args st = checkSpaceEnabled ca (spaceId args) st)
    by (unfold checkStreamIsEnabled; destruct Hk as [-> | ->]; reflexivity).
  rewrite C, (checkSpaceEnabled_cached _ _ _ _ L), Hv. reflexivity.
Qed.


(** C5. A space or is-space-member request whose space the contract
    reports disabled gets (false, SPACE_DISABLED), and a channel request
    whose channel the contract reports disabled gets (false,
    CHANNEL_DISABLED), both without error; the call to the contract and the
    miss counter are all the call does: the linked wallet, membership and
    entitlement caches are left as they were. *)
Theorem checkEntitlement_disabled (ca : chainAuth) (args : ChainAuthArgs) (st : State) :
  (kind args = chainAuthKindSpace \/ kind args = chainAuthKindIsSpaceMember ->
   lookupFresh (entitlementCache st) (now st) (newArgsForEnabledSpace (spaceId args)) = None ->
   IsSpaceDisabled (spaceContract ca) (spaceId args) = Ok true ->
   exists st',
     checkEntitlement ca args st
     = (Ok (mkBool false EntitlementResultReason_SPACE_DISABLED), st')
     /\ appended st st' [CallIsSpaceDisabled (spaceId args); Inc isSpaceEnabledCacheMiss]
     /\ linkedWalletCache st' = linkedWalletCache st
     /\ membershipCache st' = membershipCache st
     /\ entitlementManagerCache st' = entitlementManagerCache st)
  /\ (kind args = chainAuthKindChannel ->
      lookupFresh (entitlementCache st) (now st)
        (newArgsForEnabledChannel (spaceId args) (channelId args)) = None ->
      IsChannelDisabled (spaceContract ca) (spaceId args) (channelId args) = Ok true ->
      exists st',
        checkEntitlement ca args st
        = (Ok (mkBool false EntitlementResultReason_CHANNEL_DISABLED), st')
        /\ appended st st'
             [CallIsChannelDisabled (spaceId args) (channelId args);
              Inc isChannelEnabledCacheMiss]
        /\ linkedWalletCache st' = linkedWalletCache st
        /\ membershipCache st' = membershipCache st
        /\ entitlementManagerCache st' = entitlementManagerCache st).
Proof.
  split.
  - intros Hk L D.
    assert (E : exists st',
               checkStreamIsEnabled ca args st
               = (Ok (false, EntitlementResultReason_SPACE_DISABLED), st')
               /\ appended st st' [CallIsSpaceDisabled (spaceId args); Inc isSpaceEnabledCacheMiss]
               /\ linkedWalletCache st' = linkedWalletCache st
               /\ membershipCache st' = membershipCache st
               /\ entitlementManagerCache st' = entitlementManagerCache st).
    { assert (C : checkStreamIsEnabled ca args st = checkSpaceEnabled ca (spaceId args) st)
        by (unfold checkStreamIsEnabled; destruct Hk as [-> | ->]; reflexivity).
      rewrite C. unfold checkSpaceEnabled.
      erewrite bind_Ok.
      2:{ apply executeUsingCache_miss_Ok; [exact L|].
          unfold isSpaceEnabledUncached, bind, call. cbn [spaceId newArgsForEnabledSpace].
          rewrite D. reflexivity. }
      eexists. split; [reflexivity|]. unfold appended. cbn.
      rewrite <- app_assoc. repeat split; reflexivity. }
    destruct E as (st' & E & Hrest). exists st'.
    split; [now apply checkEntitlement_not_enabled | exact Hrest].
  - intros Hk L D.
    assert (E : exists st',
               checkStreamIsEnabled ca args st
               = (Ok (false, EntitlementResultReason_CHANNEL_DISABLED), st')
               /\ appended st st'
                    [CallIsChannelDisabled (spaceId args) (channelId args);
                     Inc isChannelEnabledCacheMiss]
               /\ linkedWalletCache st' = linkedWalletCache st
               /\ membershipCache st' = membershipCache st
               /\ entitlementManagerCache st' = entitlementManagerCache st).
    { unfold checkStreamIsEnabled. rewrite Hk. unfold checkChannelEnabled.
      erewrite bind_Ok.
      2:{ apply executeUsingCache_miss_Ok; [exact L|].
          unfold isChannelEnabledUncached, bind, call.
          cbn [spaceId channelId newArgsForEnabledChannel].
          rewrite D. reflexivity. }
      eexists. split; [reflexivity|]. unfold appended. cbn.
      rewrite <- app_assoc. repeat split; reflexivity. }
    destruct E as (st' & E & Hrest). exists st'.
    split; [now apply checkEntitlement_not_enabled | exact Hrest].
Qed.


(** ** The wallet cap *)

Lemma NewChainAuth_limit (blockchain : Blockchain) (evaluator : Evaluator)
    (newSpaceContract : Result SpaceContract) (newWalletLink : Result WalletLink)
    (c1 : Result (Cache boolCacheResult)) (c2 : Result (Cache membershipStatusCacheResult))
    (c3 : Result (Cache entitlementCacheResult)) (c4 : Result (Cache linkedWalletCacheValue))
    (limit timeout t : Z) (ca : chainAuth) (st : State) :
  NewChainAuth blockchain evaluator newSpaceContract newWalletLink c1 c2 c3 c4 limit timeout t
  = Ok (ca, st) ->
  linkedWalletsLimit ca = (if (limit <=? 0)%Z then DEFAULT_MAX_WALLETS else limit)
  /\ walletLinkContract ca <> None.
Proof.
  unfold NewChainAuth.
  destruct newSpaceContract, newWalletLink, c1, c2, c3, c4; try discriminate.
  intros [= <- <-]. split; [reflexivity | discriminate].
Qed.

(** C6. For a request of a kind other than IsWalletLinked whose linked
    wallets were resolved: with more wallets than [linkedWalletsLimit] the
    call fails with RESOURCE_EXHAUSTED in the state the resolution left, so
    that no membership is probed and no entitlement evaluated; with exactly
    [linkedWalletsLimit] wallets it goes on to the membership probe.  The
    limit set by [NewChainAuth] is 10 when the configured one is not
    positive. *)
Theorem checkEntitlement_wallet_cap
    (ca : chainAuth) (args : ChainAuthArgs) (st st1 st2 : State)
    (reason : EntitlementResultReason) (wallets : list Address) :
  kind args <> chainAuthKindIsWalletLinked ->
  checkStreamIsEnabled ca args st = (Ok (true, reason), st1) ->
  getLinkedWallets ca args st1 = (Ok wallets, st2) ->
  ((linkedWalletsLimit ca < Z.of_nat (List.length wallets))%Z ->
     exists e,
       checkEntitlement ca args st = (Fail e, st2)
       /\ errCode e = Err_RESOURCE_EXHAUSTED)
  /\ (Z.of_nat (List.length wallets) = linkedWalletsLimit ca ->
      checkEntitlement ca args st
      = probeMembership ca (withLinkedWallets args wallets) wallets st2)
  /\ (forall blockchain evaluator newSpaceContract newWalletLink c1 c2 c3 c4
             limit timeout t ca' st',
        NewChainAuth blockchain evaluator newSpaceContract newWalletLink
          c1 c2 c3 c4 limit timeout t = Ok (ca', st') ->
        ((limit <= 0)%Z -> linkedWalletsLimit ca' = 10%Z)
        /\ ((0 < limit)%Z -> linkedWalletsLimit ca' = limit)).
Proof.
  intros Hk He Hw. split; [|split].
  - intro Hlen. eexists. split.
    + exact (checkEntitlement_too_many_wallets _ _ _ _ _ _ _ He Hw Hk Hlen).
    + reflexivity.
  - intro Hlen. apply (checkEntitlement_probe _ _ _ _ _ _ _ He Hw Hk). lia.
  - intros blockchain evaluator newSpaceContract newWalletLink c1 c2 c3 c4
           limit timeout t ca' st' Hnew.
    apply NewChainAuth_limit in Hnew. destruct Hnew as [Hlim _]. rewrite Hlim. split.
    + intro Hle. apply Z.leb_le in Hle. rewrite Hle. reflexivity.
    + intro Hlt. apply Z.leb_gt in Hlt. rewrite Hlt. reflexivity.
Qed.

(** ** IsWalletLinked *)

(** C7. A request of kind IsWalletLinked skips the enabled check (nothing
    is asked, the state is unchanged) and, once the linked wallets are
    resolved, gets (true, NONE) when [walletAddress] is among them and
    (false, WALLET_NOT_LINKED) otherwise, without error. *)
Theorem checkEntitlement_IsWalletLinked
    (ca : chainAuth) (args : ChainAuthArgs) (st st1 : State) (wallets : list Address) :
  kind args = chainAuthKindIsWalletLinked ->
  getLinkedWallets ca args st = (Ok wallets, st1) ->
  checkStreamIsEnabled ca args st = (Ok (true, EntitlementResultReason_NONE), st)
  /\ (In (walletAddress args) wallets ->
      checkEntitlement ca args st = (Ok (mkBool true EntitlementResultReason_NONE), st1))
  /\ (~ In (walletAddress args) wallets ->
      checkEntitlement ca args st
      = (Ok (mkBool false EntitlementResultReason_WALLET_NOT_LINKED), st1)).
Proof.
  intros Hk Hw.
  assert (He : checkStreamIsEnabled ca args st = (Ok (true, EntitlementResultReason_NONE), st))
    by (unfold checkStreamIsEnabled; rewrite Hk; reflexivity).
  split; [exact He|].
  pose proof (checkEntitlement_wallet_linked _ _ _ _ _ _ _ He Hw Hk) as H.
  split; intro Hin.
  - apply hasWallet_In in Hin. now rewrite Hin in H.
  - apply hasWallet_not_In in Hin. now rewrite Hin in H.
Qed.


(** ** Busting the linked wallet cache *)

Lemma wantsFreshWallets_iff (args : ChainAuthArgs) :
  wantsFreshWallets args = true <-> freshnessSensitive args.
Proof.
  unfold wantsFreshWallets, freshnessSensitive.
  rewrite !orb_true_iff, Permission_eqb_eq, !chainAuthKind_eqb_eq. tauto.
Qed.

Lemma lookupFresh_after_bust {V : Type} (c : Cache V) (t : Z) (key : ChainAuthArgs) :
  lookupFresh (withEntries c (removeEntry key (entries c))) t key = None.
Proof.
  unfold lookupFresh. cbn [withEntries entries].
  now rewrite findEntry_removeEntry.
Qed.

(** What [getLinkedWallets] does after a bust: the lookup misses and the
    resolver is asked. *)
Lemma getLinkedWallets_fresh (ca : chainAuth) (args : ChainAuthArgs) (st : State)
    (wl : WalletLink) :
  walletLinkContract ca = Some wl ->
  wantsFreshWallets args = true ->
  fst (getLinkedWallets ca args st)
  = GetLinkedWallets (evaluator ca) (principal args) (walletLinkContract ca)
  /\ exists evs,
       appended st (snd (getLinkedWallets ca args st))
         (Bust linkedWalletCacheName (newArgsForLinkedWallets (principal args))
          :: Inc linkedWalletCacheBust
          :: CallGetLinkedWallets (principal args) :: evs).
Proof.
  intros Hwl Hfresh. unfold getLinkedWallets. rewrite Hwl, Hfresh.
  set (key := newArgsForLinkedWallets (principal args)).
  set (st1 := record (Inc linkedWalletCacheBust) (snd (bust linkedWalletCacheRef key st))).
  assert (Hpre : (bust linkedWalletCacheRef key ;;; inc linkedWalletCacheBust) st = (Ok tt, st1))
    by reflexivity.
  rewrite (bind_Ok _ _ _ _ _ Hpre).
  assert (L : lookupFresh (getCache linkedWalletCacheRef st1) (now st1) key = None)
    by apply lookupFresh_after_bust.
  assert (H1 : history st1
               = history st ++ [Bust linkedWalletCacheName key; Inc linkedWalletCacheBust]).
  { cbn. now rewrite <- app_assoc. }
  destruct (GetLinkedWallets (evaluator ca) (principal args) (Some wl)) as [ws|err] eqn:G.
  - assert (Hmiss : getLinkedWalletsUncached ca key st1
                    = (Ok {| wallets := ws |},
                       record (CallGetLinkedWallets (principal args)) st1)).
    { unfold getLinkedWalletsUncached, bind, call. cbn [principal key newArgsForLinkedWallets].
      rewrite Hwl, G. reflexivity. }
    rewrite (bind_Ok _ _ _ _ _ (executeUsingCache_miss_Ok _ _ _ _ _ _ L Hmiss)).
    split; [reflexivity|]. exists [Inc linkedWalletCacheMiss].
    unfold appended. cbn [bind inc ret snd record history setCache linkedWalletCacheRef].
    rewrite H1, <- !app_assoc. reflexivity.
  - assert (Hmiss : getLinkedWalletsUncached ca key st1
                    = (Fail err, record (CallGetLinkedWallets (principal args)) st1)).
    { unfold getLinkedWalletsUncached, bind, call. cbn [principal key newArgsForLinkedWallets].
      rewrite Hwl, G. reflexivity. }
    rewrite (bind_Fail _ _ _ _ _ (executeUsingCache_miss_Fail _ _ _ _ _ _ L Hmiss)).
    split; [reflexivity|]. exists [].
    unfold appended. cbn [snd record history].
    rewrite H1, <- !app_assoc. reflexivity.
Qed.

(** What it does without: the events it appends start with no bust and
    hold none. *)
Lemma getLinkedWallets_stale (ca : chainAuth) (args : ChainAuthArgs) (st : State)
    (wl : WalletLink) :
  walletLinkContract ca = Some wl ->
  wantsFreshWallets args = false ->
  exists evs,
    appended st (snd (getLinkedWallets ca args st)) evs
    /\ forall c k, ~ In (Bust c k) evs.
Proof.
  intros Hwl Hfresh. unfold getLinkedWallets. rewrite Hwl, Hfresh.
  unfold bind at 1. unfold ret at 1.
  unfold bind at 1. unfold executeUsingCache at 1.
  cbn [getCache setCache linkedWalletCacheRef].
  destruct (lookupFresh (linkedWalletCache st) (now st)
              (newArgsForLinkedWallets (principal args))) as [v|].
  - exists [Inc linkedWalletCacheHit]. split; [reflexivity|].
    intros c k [H|[]]; discriminate.
  - unfold getLinkedWalletsUncached, bind, call.
    cbn [principal newArgsForLinkedWallets]. rewrite Hwl.
    destruct (GetLinkedWallets (evaluator ca) (principal args) (Some wl)) as [ws|err].
    + exists [CallGetLinkedWallets (principal args); Inc linkedWalletCacheMiss].
      split; [unfold appended; cbn; now rewrite <- !app_assoc|].
      intros c k [H|[H|[]]]; discriminate.
    + exists [CallGetLinkedWallets (principal args)].
      split; [reflexivity|].
      intros c k [H|[]]; discriminate.
Qed.

(** Without the wallet link contract the principal alone is returned and
    the cache is not touched. *)
Lemma getLinkedWallets_no_contract (ca : chainAuth) (args : ChainAuthArgs) (st : State) :
  walletLinkContract ca = None ->
  getLinkedWallets ca args st = (Ok [principal args], st).
Proof. intro H. unfold getLinkedWallets. now rewrite H. Qed.

(** C8. With the wallet link contract set, [getLinkedWallets] busts the
    linked wallet cache entry of the principal, before it looks the entry
    up, exactly when the permission is Read or the kind is IsSpaceMember or
    IsWalletLinked; the lookup then misses and the resolver is asked.  For
    any other request nothing is busted, and an entry of the principal that
    is within its TTL is served as it is. *)
Theorem getLinkedWallets_bust_policy
    (ca : chainAuth) (args : ChainAuthArgs) (st : State) (wl : WalletLink) :
  walletLinkContract ca = Some wl ->
  let key := newArgsForLinkedWallets (principal args) in
  let st' := snd (getLinkedWallets ca args st) in
  ((exists evs, appended st st' (Bust linkedWalletCacheName key :: evs))
   <-> freshnessSensitive args)
  /\ (freshnessSensitive args ->
      fst (getLinkedWallets ca args st)
      = GetLinkedWallets (evaluator ca) (principal args) (walletLinkContract ca)
      /\ exists evs,
           appended st st'
             (Bust linkedWalletCacheName key :: Inc linkedWalletCacheBust
              :: CallGetLinkedWallets (principal args) :: evs))
  /\ (~ freshnessSensitive args ->
      (forall evs, appended st st' evs -> forall c k, ~ In (Bust c k) evs)
      /\ forall v,
           lookupFresh (linkedWalletCache st) (now st) key = Some v ->
           getLinkedWallets ca args st
           = (Ok (wallets (result v)), record (Inc linkedWalletCacheHit) st)).
Proof.
  intros Hwl key st'.
  assert (Hno : ~ freshnessSensitive args ->
                forall evs, appended st st' evs -> forall c k, ~ In (Bust c k) evs).
  { intros Hn evs Hevs.
    assert (Hf : wantsFreshWallets args = false).
    { destruct (wantsFreshWallets args) eqn:E; [|reflexivity].
      apply wantsFreshWallets_iff in E. contradiction. }
    destruct (getLinkedWallets_stale ca args st wl Hwl Hf) as (evs0 & H0 & Hnone).
    fold st' in H0. unfold appended in *. rewrite H0 in Hevs.
    apply app_inv_head in Hevs. subst. exact Hnone. }
  split; [|split].
  - split.
    + intros (evs & Hevs).
      destruct (wantsFreshWallets args) eqn:E; [now apply wantsFreshWallets_iff|].
      exfalso. apply (Hno (fun H => eq_true_false_abs _ (proj2 (wantsFreshWallets_iff args) H) E)
                        _ Hevs linkedWalletCacheName key).
      now left.
    + intro Hs. apply wantsFreshWallets_iff in Hs.
      destruct (getLinkedWallets_fresh ca args st wl Hwl Hs) as (_ & evs & Hevs).
      eexists. exact Hevs.
  - intro Hs. apply wantsFreshWallets_iff in Hs.
    exact (getLinkedWallets_fresh ca args st wl Hwl Hs).
  - intro Hn. split; [exact (Hno Hn)|].
    intros v L.
    assert (Hf : wantsFreshWallets args = false).
    { destruct (wantsFreshWallets args) eqn:E; [|reflexivity].
      apply wantsFreshWallets_iff in E. contradiction. }
    unfold getLinkedWallets. rewrite Hwl, Hf.
    unfold bind at 1. unfold ret at 1.
    rewrite (bind_Ok _ _ _ _ _ (executeUsingCache_hit linkedWalletCacheRef _ _ st v L)).
    reflexivity.
Qed.


(** ** Receipt verification *)

Lemma bytes_Equal_false (a b : list byte) : bytes_Equal a b = false <-> a <> b.
Proof.
  unfold bytes_Equal. rewrite <- bytes_eqb_eq. destruct (bytes_eqb a b); split; congruence.
Qed.

Lemma bytes_Equal_true (a b : list byte) : bytes_Equal a b = true <-> a = b.
Proof. apply bytes_eqb_eq. Qed.

Lemma compareTopics_same (i j : nat) (chainTopics : list Hash) :
  compareTopics i j chainTopics (map fixedBytes chainTopics) = Returns (Ok tt).
Proof.
  revert j; induction chainTopics as [|t ts IH]; intro j; [reflexivity|].
  cbn [map compareTopics].
  rewrite (proj2 (bytes_Equal_true _ _) eq_refl). cbn [negb]. apply IH.
Qed.

Lemma compareTopics_differ (i j : nat) (chainTopics : list Hash) (uploaded : list (list byte)) :
  List.length chainTopics = List.length uploaded ->
  map fixedBytes chainTopics <> uploaded ->
  compareTopics i j chainTopics uploaded
  = Returns (Fail (RiverError Err_PERMISSION_DENIED "Log topic mismatch")).
Proof.
  revert j uploaded; induction chainTopics as [|t ts IH]; intros j [|u us] Hlen Hne;
    try discriminate.
  - now contradiction Hne.
  - cbn [compareTopics].
    destruct (bytes_Equal (fixedBytes t) u) eqn:E; cbn [negb]; [|reflexivity].
    apply bytes_Equal_true in E. subst u.
    apply IH; [now injection Hlen|].
    intro Heq. apply Hne. cbn [map]. now rewrite Heq.
Qed.

Lemma compareLogs_same (i : nat) (chainLog : ethTypes.Log) (rest : list ethTypes.Log)
    (uploadedLog : protocol.BlockchainTransactionReceipt_Log)
    (uploadedRest : list protocol.BlockchainTransactionReceipt_Log) :
  sameLog chainLog uploadedLog ->
  compareLogs i (chainLog :: rest) (uploadedLog :: uploadedRest)
  = compareLogs (S i) rest uploadedRest.
Proof.
  intros (Ha & Ht & Hd). cbn [compareLogs].
  rewrite (proj2 (bytes_Equal_true _ _) Ha). cbn [negb].
  rewrite <- Ht, length_map, Nat.eqb_refl. cbn [negb].
  rewrite compareTopics_same. cbn [andThen].
  rewrite (proj2 (bytes_Equal_true _ _) Hd). reflexivity.
Qed.

Lemma compareLogs_mismatch (i : nat) (chainLog : ethTypes.Log) (rest : list ethTypes.Log)
    (uploadedLog : protocol.BlockchainTransactionReceipt_Log)
    (uploadedRest : list protocol.BlockchainTransactionReceipt_Log) (msg : string) :
  logMismatch chainLog uploadedLog msg ->
  compareLogs i (chainLog :: rest) (uploadedLog :: uploadedRest)
  = Returns (Fail (RiverError Err_PERMISSION_DENIED msg)).
Proof.
  intros [Ha | Ha Hn | Ha Hn Ht | Ha Ht Hd]; cbn [compareLogs].
  - apply bytes_Equal_false in Ha. rewrite Ha. reflexivity.
  - rewrite (proj2 (bytes_Equal_true _ _) Ha). cbn [negb].
    apply Nat.eqb_neq in Hn. rewrite Hn. reflexivity.
  - rewrite (proj2 (bytes_Equal_true _ _) Ha). cbn [negb].
    rewrite Hn, Nat.eqb_refl. cbn [negb].
    rewrite (compareTopics_differ _ _ _ _ Hn Ht). reflexivity.
  - rewrite (proj2 (bytes_Equal_true _ _) Ha). cbn [negb].
    rewrite <- Ht, length_map, Nat.eqb_refl. cbn [negb].
    rewrite compareTopics_same. cbn [andThen].
    apply bytes_Equal_false in Hd. rewrite Hd. reflexivity.
Qed.

(** Two logs agree, or they differ on a first field. *)
Lemma sameLog_or_mismatch (chainLog : ethTypes.Log)
    (uploadedLog : protocol.BlockchainTransactionReceipt_Log) :
  sameLog chainLog uploadedLog \/ exists msg, logMismatch chainLog uploadedLog msg.
Proof.
  destruct (bytes_Equal (fixedBytes (ethTypes.Address chainLog)) (protocol.Address uploadedLog))
    eqn:Ea.
  2:{ right. eexists. apply addressMismatch. now apply bytes_Equal_false. }
  apply bytes_Equal_true in Ea.
  destruct (Nat.eq_dec (List.length (ethTypes.Topics chainLog))
                       (List.length (protocol.Topics uploadedLog))) as [Hn|Hn].
  2:{ right. eexists. now apply topicsCountMismatch. }
  destruct (list_eq_dec (list_eq_dec Byte.byte_eq_dec)
              (map fixedBytes (ethTypes.Topics chainLog)) (protocol.Topics uploadedLog))
    as [Ht|Ht].
  2:{ right. eexists. now apply topicMismatch. }
  destruct (bytes_Equal (ethTypes.Data chainLog) (protocol.Data uploadedLog)) eqn:Ed.
  - apply bytes_Equal_true in Ed. left. repeat split; assumption.
  - apply bytes_Equal_false in Ed. right. eexists. now apply dataMismatch.
Qed.

Lemma compareLogs_prefix (i : nat) (before rest : list ethTypes.Log)
    (uploadedBefore uploadedRest : list protocol.BlockchainTransactionReceipt_Log) :
  Forall2 sameLog before uploadedBefore ->
  compareLogs i (before ++ rest) (uploadedBefore ++ uploadedRest)
  = compareLogs (i + List.length before) rest uploadedRest.
Proof.
  intro F. revert i. induction F as [|c u cs us Hs _ IH]; intro i.
  - cbn. now rewrite Nat.add_0_r.
  - cbn [app List.length]. rewrite (compareLogs_same _ _ _ _ _ Hs), IH.
    f_equal. lia.
Qed.

Lemma compareLogs_all_same (i : nat) (chainLogs : list ethTypes.Log)
    (uploadedLogs : list protocol.BlockchainTransactionReceipt_Log) :
  Forall2 sameLog chainLogs uploadedLogs ->
  compareLogs i chainLogs uploadedLogs = Returns (Ok tt).
Proof.
  intro F. revert i. induction F as [|c u cs us Hs _ IH]; intro i; [reflexivity|].
  rewrite (compareLogs_same _ _ _ _ _ Hs). apply IH.
Qed.

Lemma compareLogs_Ok (i : nat) (chainLogs : list ethTypes.Log)
    (uploadedLogs : list protocol.BlockchainTransactionReceipt_Log) :
  List.length chainLogs = List.length uploadedLogs ->
  compareLogs i chainLogs uploadedLogs = Returns (Ok tt) ->
  Forall2 sameLog chainLogs uploadedLogs.
Proof.
  revert i uploadedLogs; induction chainLogs as [|c cs IH]; intros i [|u us] Hlen Hcmp;
    try discriminate; [constructor|].
  destruct (sameLog_or_mismatch c u) as [Hs|(msg & Hm)].
  - constructor; [exact Hs|].
    rewrite (compareLogs_same _ _ _ _ _ Hs) in Hcmp.
    apply (IH (S i)); [now injection Hlen | exact Hcmp].
  - rewrite (compareLogs_mismatch _ _ _ _ _ _ Hm) in Hcmp. discriminate.
Qed.


(** What is left of [VerifyReceipt] once every comparison has succeeded:
    the confirmation check. *)
Lemma VerifyReceipt_after_comparisons (ca : chainAuth)
    (userReceipt : protocol.BlockchainTransactionReceipt) :
  comparisonsSucceed ca userReceipt ->
  VerifyReceipt ca userReceipt
  = match BlockNumber (Client (blockchain ca)) with
    | Fail err =>
        Returns (Fail (RiverError Err_PERMISSION_DENIED "Failed to get latest block number: %v"))
    | Ok latestBlockNumber =>
        if (sub64 latestBlockNumber (protocol.BlockNumber userReceipt) <? 1)%Z
        then Returns (Fail (RiverError Err_PERMISSION_DENIED "Transaction has 0 confirmations."))
        else Returns (Ok true)
    end.
Proof.
  intros (client & chainReceipt & tx & to & sender
          & Hc & Hr & Hbn & Hlogs & Htx & Hto & Htoeq & Hs & Hfrom).
  unfold VerifyReceipt. rewrite Hc. cbn [andThen]. rewrite Hr.
  rewrite Hbn, Z.eqb_refl. cbn [negb].
  rewrite (Forall2_length Hlogs), Nat.eqb_refl. cbn [negb].
  rewrite (compareLogs_all_same _ _ _ Hlogs). cbn [andThen].
  rewrite Htx. cbn [andThen]. rewrite Hto.
  rewrite (proj2 (bytes_Equal_true _ _) Htoeq). cbn [negb].
  rewrite Hs. cbn [andThen].
  rewrite (proj2 (bytes_Equal_true _ _) Hfrom). cbn [negb].
  reflexivity.
Qed.

Lemma VerifyReceipt_true_only (ca : chainAuth)
    (userReceipt : protocol.BlockchainTransactionReceipt) :
  VerifyReceipt ca userReceipt = Returns (Ok true) ->
  comparisonsSucceed ca userReceipt.
Proof.
  unfold VerifyReceipt, comparisonsSucceed.
  destruct (GetClient (evaluator ca) (protocol.ChainId userReceipt)) as [client|err] eqn:Hc;
    cbn [andThen]; [|discriminate].
  destruct (TransactionReceipt client (BytesToHash (protocol.TransactionHash userReceipt)))
    as [chainReceipt|err] eqn:Hr; [|destruct (Is_NotFound err); discriminate].
  destruct (Uint64 (ethTypes.BlockNumber chainReceipt) =? protocol.BlockNumber userReceipt)%Z
    eqn:Hbn; cbn [negb]; [|discriminate].
  destruct (List.length (ethTypes.Logs chainReceipt)
            =? List.length (protocol.Logs userReceipt))%nat eqn:Hlen;
    cbn [negb]; [|discriminate].
  destruct (compareLogs 0 (ethTypes.Logs chainReceipt) (protocol.Logs userReceipt))
    as [[[]|err]|] eqn:Hlogs; cbn [andThen]; try discriminate.
  destruct (TransactionByHash client (BytesToHash (protocol.TransactionHash userReceipt)))
    as [[tx isPending]|err] eqn:Htx; cbn [andThen]; [|discriminate].
  destruct isPending; [discriminate|].
  destruct (ethTypes.To tx) as [to|] eqn:Hto; [|discriminate].
  destruct (bytes_Equal (fixedBytes to) (protocol.To userReceipt)) eqn:Htoeq;
    cbn [negb]; [|discriminate].
  destruct (ethTypes.Sender tx) as [sender|err] eqn:Hs; cbn [andThen]; [|discriminate].
  destruct (bytes_Equal (fixedBytes sender) (protocol.From userReceipt)) eqn:Hfrom;
    cbn [negb]; [|discriminate].
  intros _. exists client, chainReceipt, tx, to, sender.
  apply Z.eqb_eq in Hbn. apply Nat.eqb_eq in Hlen.
  apply bytes_Equal_true in Htoeq. apply bytes_Equal_true in Hfrom.
  repeat split; try assumption; try reflexivity.
  exact (compareLogs_Ok _ _ _ Hlen Hlogs).
Qed.

(** A transaction without a to address (a contract creation) makes the
    to comparison dereference nil: the call panics. *)
Lemma VerifyReceipt_contract_creation (ca : chainAuth)
    (userReceipt : protocol.BlockchainTransactionReceipt)
    (client : BlockchainClient) (chainReceipt : ethTypes.Receipt) (tx : ethTypes.Transaction) :
  GetClient (evaluator ca) (protocol.ChainId userReceipt) = Ok client ->
  TransactionReceipt client (BytesToHash (protocol.TransactionHash userReceipt))
  = Ok chainReceipt ->
  Uint64 (ethTypes.BlockNumber chainReceipt) = protocol.BlockNumber userReceipt ->
  Forall2 sameLog (ethTypes.Logs chainReceipt) (protocol.Logs userReceipt) ->
  TransactionByHash client (BytesToHash (protocol.TransactionHash userReceipt))
  = Ok (tx, false) ->
  ethTypes.To tx = None ->
  VerifyReceipt ca userReceipt = Panics.
Proof.
  intros Hc Hr Hbn Hlogs Htx Hto.
  unfold VerifyReceipt. rewrite Hc. cbn [andThen]. rewrite Hr.
  rewrite Hbn, Z.eqb_refl. cbn [negb].
  rewrite (Forall2_length Hlogs), Nat.eqb_refl. cbn [negb].
  rewrite (compareLogs_all_same _ _ _ Hlogs). cbn [andThen].
  rewrite Htx. cbn [andThen]. rewrite Hto. reflexivity.
Qed.


(** How [VerifyReceipt] classifies failures, with the client of the
    receipt's chain at hand: a chain receipt that is not found gives
    PERMISSION_DENIED, any other error fetching it gives
    DOWNSTREAM_NETWORK_ERROR around that error; a difference in the block
    number, in the number of logs, in a log's address, number of topics,
    topics or data, a pending transaction, and, for a transaction that has
    a to address, a different to address or a different recovered from
    address each give (false, PERMISSION_DENIED) with the message naming
    that field.  [VerifyReceipt] returns true only when all of these
    comparisons succeed.  A transaction without a to address is the matter
    of [VerifyReceipt_contract_creation]. *)
Theorem VerifyReceipt_failures (ca : chainAuth)
    (userReceipt : protocol.BlockchainTransactionReceipt) :
  let txHash := BytesToHash (protocol.TransactionHash userReceipt) in
  let uploadedLogs := protocol.Logs userReceipt in
  (forall client,
     GetClient (evaluator ca) (protocol.ChainId userReceipt) = Ok client ->
     (forall err,
        TransactionReceipt client txHash = Fail err ->
        (Is_NotFound err = true -> denied ca userReceipt "Transaction receipt not found")
        /\ (Is_NotFound err = false ->
            exists e,
              VerifyReceipt ca userReceipt = Returns (Fail e)
              /\ errCode e = Err_DOWNSTREAM_NETWORK_ERROR
              /\ Unwrap e = Some err))
     /\ (forall chainReceipt,
           TransactionReceipt client txHash = Ok chainReceipt ->
           let chainLogs := ethTypes.Logs chainReceipt in
           (Uint64 (ethTypes.BlockNumber chainReceipt) <> protocol.BlockNumber userReceipt ->
            denied ca userReceipt "Block number mismatch")
           /\ (Uint64 (ethTypes.BlockNumber chainReceipt) = protocol.BlockNumber userReceipt ->
               (List.length chainLogs <> List.length uploadedLogs ->
                denied ca userReceipt "Log count mismatch: chain:")
               /\ (List.length chainLogs = List.length uploadedLogs ->
                   forall before chainLog after uploadedBefore uploadedLog uploadedAfter msg,
                     chainLogs = before ++ chainLog :: after ->
                     uploadedLogs = uploadedBefore ++ uploadedLog :: uploadedAfter ->
                     Forall2 sameLog before uploadedBefore ->
                     logMismatch chainLog uploadedLog msg ->
                     denied ca userReceipt msg)
               /\ (Forall2 sameLog chainLogs uploadedLogs ->
                   forall tx isPending,
                     TransactionByHash client txHash = Ok (tx, isPending) ->
                     (isPending = true -> denied ca userReceipt "Transaction is pending")
                     /\ (isPending = false ->
                         forall to,
                           ethTypes.To tx = Some to ->
                           (fixedBytes to <> protocol.To userReceipt ->
                            denied ca userReceipt "To address mismatch")
                           /\ (fixedBytes to = protocol.To userReceipt ->
                               forall sender,
                                 ethTypes.Sender tx = Ok sender ->
                                 fixedBytes sender <> protocol.From userReceipt ->
                                 denied ca userReceipt "From address mismatch"))))))
  /\ (VerifyReceipt ca userReceipt = Returns (Ok true) -> comparisonsSucceed ca userReceipt).
Proof.
  intros txHash uploadedLogs. split; [|apply VerifyReceipt_true_only].
  intros client Hc. unfold denied, VerifyReceipt. fold txHash uploadedLogs.
  rewrite Hc. cbn [andThen]. split.
  - intros err Hr. rewrite Hr. split; intro Hnf; rewrite Hnf; [reflexivity|].
    eexists. split; [reflexivity|]. split; reflexivity.
  - intros chainReceipt Hr. rewrite Hr. split.
    + intro Hbn. apply Z.eqb_neq in Hbn. rewrite Hbn. reflexivity.
    + intro Hbn. rewrite Hbn, Z.eqb_refl. cbn [negb]. split; [|split].
      * intro Hlen. apply Nat.eqb_neq in Hlen. rewrite Hlen. reflexivity.
      * intros Hlen before chainLog after uploadedBefore uploadedLog uploadedAfter msg
               Ec Eu Hsame Hm.
        rewrite Hlen, Nat.eqb_refl. cbn [negb].
        rewrite Ec, Eu, (compareLogs_prefix _ _ _ _ _ Hsame).
        rewrite (compareLogs_mismatch _ _ _ _ _ _ Hm). reflexivity.
      * intros Hlogs tx isPending Htx.
        rewrite (Forall2_length Hlogs), Nat.eqb_refl. cbn [negb].
        rewrite (compareLogs_all_same _ _ _ Hlogs). cbn [andThen].
        rewrite Htx. cbn [andThen]. split; intro Hp; rewrite Hp; [reflexivity|].
        intros to Hto. rewrite Hto. split.
        -- intro Hne. apply bytes_Equal_false in Hne. rewrite Hne. reflexivity.
        -- intros Heq sender Hs Hne.
           rewrite (proj2 (bytes_Equal_true _ _) Heq). cbn [negb].
           rewrite Hs. cbn [andThen].
           apply bytes_Equal_false in Hne. rewrite Hne. reflexivity.
Qed.

(** ** Confirmations *)

Lemma sub64_small (a b : Z) :
  (0 <= b <= a)%Z -> (a < MaxUint64)%Z -> sub64 a b = (a - b)%Z.
Proof. intros H1 H2. unfold sub64. apply Z.mod_small. lia. Qed.

Lemma sub64_wraps (a b : Z) :
  (0 <= a < b)%Z -> (b < MaxUint64)%Z -> sub64 a b = (a - b + MaxUint64)%Z.
Proof.
  intros H1 H2. unfold sub64.
  rewrite <- (Z.mod_small (a - b + MaxUint64) MaxUint64) by lia.
  rewrite <- (Z_mod_plus_full (a - b) 1 MaxUint64). f_equal; lia.
Qed.

(** The confirmation check on [uint64] values, once every comparison has
    succeeded: a latest block equal to the receipt's block is rejected, a
    later one passes, and an earlier one passes too, the difference
    wrapping around. *)
Lemma VerifyReceipt_confirmations (ca : chainAuth)
    (userReceipt : protocol.BlockchainTransactionReceipt) (latestBlockNumber : Z) :
  comparisonsSucceed ca userReceipt ->
  BlockNumber (Client (blockchain ca)) = Ok latestBlockNumber ->
  (0 <= latestBlockNumber < MaxUint64)%Z ->
  let blockNumber := protocol.BlockNumber userReceipt in
  (latestBlockNumber = blockNumber ->
     denied ca userReceipt "Transaction has 0 confirmations.")
  /\ ((blockNumber + 1 <= latestBlockNumber)%Z ->
      VerifyReceipt ca userReceipt = Returns (Ok true))
  /\ ((latestBlockNumber < blockNumber)%Z ->
      VerifyReceipt ca userReceipt = Returns (Ok true)).
Proof.
  intros Hcmp Hlatest Hrange blockNumber.
  assert (Hbn : (0 <= blockNumber < MaxUint64)%Z).
  { destruct Hcmp as (client & chainReceipt & tx & to & sender & _ & _ & Hbn & _).
    unfold blockNumber. rewrite <- Hbn. unfold Uint64. apply Z.mod_pos_bound. reflexivity. }
  unfold denied. rewrite (VerifyReceipt_after_comparisons _ _ Hcmp), Hlatest.
  fold blockNumber. split; [|split].
  - intros ->. unfold sub64. rewrite Z.sub_diag. reflexivity.
  - intro H. rewrite sub64_small by lia.
    destruct (Z.ltb_spec (latestBlockNumber - blockNumber) 1); [lia | reflexivity].
  - intro H. rewrite sub64_wraps by lia.
    destruct (Z.ltb_spec (latestBlockNumber - blockNumber + MaxUint64) 1); [lia | reflexivity].
Qed.


End Properties.

(* ================================================================== *)
(** * Further properties *)

Section Further.

Context {X : Externals}.

(** ** Kinds that are no requests *)

(** X1. The kinds SpaceEnabled and ChannelEnabled are cache keys, not
    requests: [checkEntitlement] answers them with an INTERNAL error and
    does nothing else. *)
Theorem checkEntitlement_unknown_kind (ca : chainAuth) (args : ChainAuthArgs) (st : State) :
  kind args = chainAuthKindSpaceEnabled \/ kind args = chainAuthKindChannelEnabled ->
  exists e,
    checkEntitlement ca args st = (Fail e, st)
    /\ errCode e = Err_INTERNAL
    /\ errMessage e = "Unknown chain auth kind".
Proof.
  intro Hk. eexists. split; [|split].
  - unfold checkEntitlement, checkStreamIsEnabled, bind.
    destruct Hk as [-> | ->]; reflexivity.
  - reflexivity.
  - reflexivity.
Qed.

(** ** The membership probe *)

Lemma receiveResults_acc (results : list membershipStatusCacheResult)
    (isMember isExpired : bool) :
  receiveResults results isMember isExpired
  = (isMember || existsb (fun r => IsMember (status r)) results,
     if existsb (fun r => IsMember (status r) && negb (IsExpired (status r))) results
     then false else isExpired)
  \/ (receiveResults results isMember isExpired = (true, false)
      /\ existsb (fun r => IsMember (status r) && negb (IsExpired (status r))) results = true).
Proof.
  revert isMember isExpired.
  induction results as [|r rs IH]; intros m e; cbn [receiveResults existsb].
  - left. now rewrite orb_false_r.
  - destruct (IsMember (status r)) eqn:Hm; cbn [andb orb].
    + destruct (IsExpired (status r)) eqn:He; cbn [negb orb].
      * destruct (IH true e) as [H | [H1 H2]].
        -- left. rewrite H. cbn [orb]. now rewrite orb_true_r.
        -- right. split; assumption.
      * right. split; reflexivity.
    + exact (IH m e).
Qed.

Lemma existsb_Permutation {A : Type} (f : A -> bool) (l l' : list A) :
  Permutation l l' -> existsb f l = existsb f l'.
Proof.
  intro P. apply eq_true_iff_eq. rewrite !existsb_exists.
  split; intros (x & Hin & Hx); exists x; split; try exact Hx.
  - exact (Permutation_in _ P Hin).
  - exact (Permutation_in _ (Permutation_sym P) Hin).
Qed.

(** X2. What the first receive loop of [checkEntitlement] computes:
    [isMember] is whether some result is a member and [isExpired] whether
    no member is unexpired; so the two flags do not depend on the order in
    which the probes have completed. *)
Theorem receiveResults_flags (results : list membershipStatusCacheResult) :
  receiveResults results false true
  = (existsb (fun r => IsMember (status r)) results,
     negb (existsb (fun r => IsMember (status r) && negb (IsExpired (status r))) results))
  /\ forall results',
       Permutation results results' ->
       receiveResults results' false true = receiveResults results false true.
Proof.
  assert (F : forall rs,
             receiveResults rs false true
             = (existsb (fun r => IsMember (status r)) rs,
                negb (existsb (fun r => IsMember (status r) && negb (IsExpired (status r))) rs))).
  { intro rs. destruct (receiveResults_acc rs false true) as [H | [H1 H2]].
    - rewrite H. cbn [orb].
      destruct (existsb (fun r => IsMember (status r) && negb (IsExpired (status r))) rs);
        reflexivity.
    - rewrite H1, H2. cbn [negb].
      apply existsb_exists in H2. destruct H2 as (r & Hin & Hr).
      apply andb_true_iff in Hr. destruct Hr as [Hm _].
      assert (E : existsb (fun r => IsMember (status r)) rs = true)
        by (apply existsb_exists; now exists r).
      now rewrite E. }
  split; [apply F|].
  intros results' P. rewrite !F.
  now rewrite (existsb_Permutation _ _ _ P),
              (existsb_Permutation (fun r => IsMember (status r) && negb (IsExpired (status r)))
                 _ _ P).
Qed.

Lemma checkMembership_one_message (ca : chainAuth) (address : Address) (spaceId : StreamId)
    (chans : Channels) (st : State) :
  let chans' := fst (checkMembership ca address spaceId chans st) in
  List.length (isMemberResults chans') + List.length (isMemberError chans')
  = S (List.length (isMemberResults chans) + List.length (isMemberError chans)).
Proof.
  unfold checkMembership.
  destruct (executeUsingCache membershipCacheRef _ _ st) as [[[r hit]|err] st'];
    cbn [fst isMemberResults isMemberError]; rewrite length_app; cbn [List.length]; lia.
Qed.

(** X3. Every goroutine of the probe sends exactly one message, a result
    or an error: after the probes of [addresses] the two channels hold as
    many more messages as there are addresses, so that channels buffered to
    the number of wallets are never full before a send. *)
Theorem runMembershipChecks_one_message_each (ca : chainAuth) (spaceId : StreamId)
    (addresses : list Address) (chans : Channels) (st : State) :
  let chans' := fst (runMembershipChecks ca spaceId addresses chans st) in
  List.length (isMemberResults chans') + List.length (isMemberError chans')
  = List.length (isMemberResults chans) + List.length (isMemberError chans)
    + List.length addresses.
Proof.
  revert chans st. induction addresses as [|a rest IH]; intros chans st.
  - cbn. lia.
  - cbn [runMembershipChecks List.length].
    pose proof (checkMembership_one_message ca a spaceId chans st) as H1.
    destruct (checkMembership ca a spaceId chans st) as [chans1 st1].
    cbn [fst] in H1. cbn zeta in H1.
    specialize (IH chans1 st1). cbn zeta in IH. rewrite IH, H1. lia.
Qed.

Lemma checkMembership_events (ca : chainAuth) (address : Address) (space : StreamId)
    (chans : Channels) (st : State) :
  let st' := snd (checkMembership ca address space chans st) in
  (exists evs,
     history st' = history st ++ evs
     /\ Forall (probeEvent space [address]) evs)
  /\ entitlementCache st' = entitlementCache st
  /\ entitlementManagerCache st' = entitlementManagerCache st
  /\ linkedWalletCache st' = linkedWalletCache st.
Proof.
  unfold checkMembership, executeUsingCache.
  cbn [getCache setCache membershipCacheRef].
  destruct (lookupFresh (membershipCache st) (now st) _) as [v|].
  - cbn [snd]. split; [|repeat split].
    exists [Inc membershipCacheHit]. split; [reflexivity|].
    constructor; [|constructor]. right. now left.
  - unfold checkMembershipUncached, bind, call. cbn [spaceId principal].
    destruct (GetMembershipStatus (spaceContract ca) space address) as [ms|err];
      cbn [snd ret]; (split; [|repeat split]).
    + exists [CallGetMembershipStatus space address; Inc membershipCacheMiss].
      split; [cbn; now rewrite <- app_assoc|].
      constructor; [left; exists address; split; [now left | reflexivity]|].
      constructor; [|constructor]. right. now right.
    + exists [CallGetMembershipStatus space address]. split; [reflexivity|].
      constructor; [|constructor]. left. exists address. split; [now left | reflexivity].
Qed.

Lemma probeEvent_incl (spaceId : StreamId) (l l' : list Address) (ev : Event) :
  incl l l' -> probeEvent spaceId l ev -> probeEvent spaceId l' ev.
Proof.
  intros Hincl [(a & Hin & E) | H]; [left | right; exact H].
  exists a. split; [now apply Hincl | exact E].
Qed.

(** X4. The probe asks the space contract for nothing but the membership
    status, in the space of the request, of the addresses it is given; it
    counts hits and misses of the membership cache and leaves the three
    other caches as they were. *)
Theorem runMembershipChecks_only_probes (ca : chainAuth) (spaceId : StreamId)
    (addresses : list Address) (chans : Channels) (st : State) :
  let st' := snd (runMembershipChecks ca spaceId addresses chans st) in
  (exists evs,
     history st' = history st ++ evs
     /\ Forall (probeEvent spaceId addresses) evs)
  /\ entitlementCache st' = entitlementCache st
  /\ entitlementManagerCache st' = entitlementManagerCache st
  /\ linkedWalletCache st' = linkedWalletCache st.
Proof.
  revert chans st. induction addresses as [|a rest IH]; intros chans st.
  - cbn. split; [|repeat split]. exists []. split; [now rewrite app_nil_r | constructor].
  - cbn [runMembershipChecks].
    pose proof (checkMembership_events ca a spaceId chans st) as H1.
    destruct (checkMembership ca a spaceId chans st) as [chans1 st1].
    cbn [snd] in H1. cbn zeta in H1.
    destruct H1 as ((evs1 & Hh1 & F1) & Ha1 & Hb1 & Hc1).
    specialize (IH chans1 st1). cbn zeta in IH.
    destruct IH as ((evs2 & Hh2 & F2) & Ha2 & Hb2 & Hc2).
    cbn zeta. split; [|repeat split; congruence].
    exists (evs1 ++ evs2). split.
    + rewrite Hh2, Hh1. now rewrite app_assoc.
    + apply Forall_app. split.
      * eapply Forall_impl; [|exact F1]. intro ev. apply probeEvent_incl.
        intros x [<-|[]]. now left.
      * eapply Forall_impl; [|exact F2]. intro ev. apply probeEvent_incl.
        intros x Hx. now right.
Qed.

(** X5. For a request of kind IsSpaceMember that reaches the probe, one
    unexpired member among the results settles the answer: (true, NONE) in
    the state the probes left, without fetching or evaluating any
    entitlement and without asking whether the user is banned. *)
Theorem checkEntitlement_IsSpaceMember
    (ca : chainAuth) (args : ChainAuthArgs) (st st1 st2 st3 : State)
    (reason : EntitlementResultReason) (wallets : list Address) (chans : Channels) :
  kind args = chainAuthKindIsSpaceMember ->
  checkStreamIsEnabled ca args st = (Ok (true, reason), st1) ->
  getLinkedWallets ca args st1 = (Ok wallets, st2) ->
  (Z.of_nat (List.length wallets) <= linkedWalletsLimit ca)%Z ->
  runMembershipChecks ca (spaceId args) (completionOrder wallets)
    {| isMemberResults := []; isMemberError := [] |} st2 = (chans, st3) ->
  Exists freshMemberResult (isMemberResults chans) ->
  checkEntitlement ca args st = (Ok (mkBool true EntitlementResultReason_NONE), st3).
Proof.
  intros Hk He Hw Hlen Hrun Hfresh.
  assert (Hk' : kind args <> chainAuthKindIsWalletLinked) by (rewrite Hk; discriminate).
  rewrite (checkEntitlement_probe _ _ _ _ _ _ _ He Hw Hk' Hlen).
  unfold probeMembership. cbn [withLinkedWallets spaceId]. rewrite Hrun.
  unfold decideMembership. rewrite (receiveResults_fresh _ _ _ Hfresh). cbn [negb].
  unfold areLinkedWalletsEntitled. cbn [kind withLinkedWallets]. rewrite Hk. reflexivity.
Qed.


(** ** Entitlement evaluation *)

Lemma evaluateEntitlements_without_rules (ca : chainAuth) (wallets : list Address)
    (entitlements : list Entitlement) (st : State) :
  Forall notRule entitlements ->
  exists b,
    evaluateEntitlements ca wallets entitlements st = (Ok b, st)
    /\ (b = true <-> Exists (userListPasses wallets) entitlements).
Proof.
  intro F. induction F as [|ent rest [H1 H2] _ IH].
  - exists false. split; [reflexivity|]. split; [discriminate | intro E; inversion E].
  - cbn [evaluateEntitlements].
    destruct (EntitlementType ent) eqn:Hty; try congruence.
    + destruct (userEntitlementPasses wallets (UserEntitlement ent)) eqn:Hp.
      * exists true. split; [reflexivity|]. split; [|reflexivity]. intros _.
        apply Exists_cons_hd. split; [exact Hty|].
        now apply userEntitlementPasses_In.
      * destruct IH as (b & Hb & Hiff). exists b. split; [exact Hb|].
        rewrite Hiff. split; [now apply Exists_cons_tl|].
        intro E. inversion E as [? ? [_ Hpass]|]; subst; [|assumption].
        apply userEntitlementPasses_In in Hpass. congruence.
    + destruct IH as (b & Hb & Hiff). exists b. split; [exact Hb|].
      rewrite Hiff. split; [now apply Exists_cons_tl|].
      intro E. inversion E as [? ? [Hu _]|]; subst; [congruence | assumption].
Qed.

(** X6. When no record is a rule, [evaluateEntitlementData] calls no
    collaborator and cannot fail: the state is unchanged, and the answer is
    true exactly when one of the user lists holds the everyone address or
    one of the deserialized wallets. *)
Theorem evaluateEntitlementData_without_rules (ca : chainAuth)
    (entitlements : list Entitlement) (args : ChainAuthArgs) (st : State) :
  Forall notRule entitlements ->
  exists b,
    evaluateEntitlementData ca entitlements args st = (Ok b, st)
    /\ (b = true <->
        Exists (userListPasses (deserializeWallets (linkedWallets args))) entitlements).
Proof.
  intro F. unfold evaluateEntitlementData. now apply evaluateEntitlements_without_rules.
Qed.

(** X7. When the owner is not among the wallets and [IsBanned] fails,
    [evaluateWithEntitlements] fails with a wrap of that error right after
    the call: no entitlement is evaluated. *)
Theorem evaluateWithEntitlements_ban_error
    (ca : chainAuth) (args : ChainAuthArgs) (owner : Address)
    (entitlements : list Entitlement) (st : State) (err : error) :
  let wallets := deserializeWallets (linkedWallets args) in
  ~ In owner wallets ->
  IsBanned (spaceContract ca) (spaceId args) wallets = Fail err ->
  exists e,
    evaluateWithEntitlements ca args owner entitlements st
    = (Fail e, record (CallIsBanned (spaceId args) wallets) st)
    /\ Unwrap e = Some err.
Proof.
  intros wallets Hout Hban. unfold evaluateWithEntitlements. fold wallets.
  apply hasWallet_not_In in Hout. rewrite Hout.
  unfold bind, orWrap, call. rewrite Hban.
  eexists. split; reflexivity.
Qed.

(** X8. When the owner is not among the wallets and [IsBanned] answers
    false, the answer of [evaluateWithEntitlements] is the answer of
    [evaluateEntitlementData] run after the ban call, an error of it being
    wrapped; the state is the one that run leaves. *)
Theorem evaluateWithEntitlements_not_banned
    (ca : chainAuth) (args : ChainAuthArgs) (owner : Address)
    (entitlements : list Entitlement) (st : State) :
  let wallets := deserializeWallets (linkedWallets args) in
  let st1 := record (CallIsBanned (spaceId args) wallets) st in
  ~ In owner wallets ->
  IsBanned (spaceContract ca) (spaceId args) wallets = Ok false ->
  snd (evaluateWithEntitlements ca args owner entitlements st)
  = snd (evaluateEntitlementData ca entitlements args st1)
  /\ (forall b,
        fst (evaluateEntitlementData ca entitlements args st1) = Ok b ->
        fst (evaluateWithEntitlements ca args owner entitlements st) = Ok b)
  /\ (forall err,
        fst (evaluateEntitlementData ca entitlements args st1) = Fail err ->
        exists e,
          fst (evaluateWithEntitlements ca args owner entitlements st) = Fail e
          /\ Unwrap e = Some err).
Proof.
  intros wallets st1 Hout Hban.
  assert (E : evaluateWithEntitlements ca args owner entitlements st
              = orWrap (evaluateEntitlementData ca entitlements args)
                  (fun err => Func "evaluateEntitlements" (AsRiverError err None)) st1).
  { unfold evaluateWithEntitlements. fold wallets.
    apply hasWallet_not_In in Hout. rewrite Hout.
    unfold bind, orWrap, call. rewrite Hban. reflexivity. }
  rewrite E. unfold orWrap.
  destruct (evaluateEntitlementData ca entitlements args st1) as [[b|err] st2]; cbn [fst snd].
  - split; [reflexivity|]. split; [intros b' [= <-]; reflexivity | discriminate].
  - split; [reflexivity|]. split; [discriminate|].
    intros err' [= <-]. eexists. split; reflexivity.
Qed.

Lemma evaluateEntitlements_appends (ca : chainAuth) (wallets : list Address)
    (entitlements : list Entitlement) (st : State) :
  exists evs,
    history (snd (evaluateEntitlements ca wallets entitlements st)) = history st ++ evs.
Proof.
  revert st; induction entitlements as [|ent rest IH]; intro st.
  - exists []. cbn. now rewrite app_nil_r.
  - cbn [evaluateEntitlements]. destruct (EntitlementType ent).
    + unfold bind, call.
      destruct (ConvertV1RuleDataToV2 (RuleEntitlement ent)) as [reV2|err].
      * destruct (EvaluateRuleData (evaluator ca) wallets reV2) as [[|]|err].
        -- eexists. cbn. rewrite <- app_assoc. reflexivity.
        -- destruct (IH (record (CallEvaluateRuleData wallets reV2)
                           (record (CallConvertV1RuleDataToV2 (RuleEntitlement ent)) st)))
             as (evs & Hevs).
           eexists. rewrite Hevs. cbn. rewrite <- !app_assoc. reflexivity.
        -- eexists. cbn. rewrite <- app_assoc. reflexivity.
      * eexists. reflexivity.
    + unfold bind, call.
      destruct (EvaluateRuleData (evaluator ca) wallets (RuleEntitlementV2 ent))
        as [[|]|err].
      * eexists. reflexivity.
      * destruct (IH (record (CallEvaluateRuleData wallets (RuleEntitlementV2 ent)) st))
          as (evs & Hevs).
        eexists. rewrite Hevs. cbn. rewrite <- !app_assoc. reflexivity.
      * eexists. reflexivity.
    + destruct (userEntitlementPasses wallets (UserEntitlement ent)); [|apply IH].
      exists []. cbn. now rewrite app_nil_r.
    + apply IH.
Qed.

(** X9. A request whose [linkedWallets] text is empty is evaluated for the
    zero address: [evaluateWithEntitlements] grants it without any call when
    the owner is the zero address; for any other owner the first thing it
    does, whatever the answer, is to ask [IsBanned] about the list holding
    the zero address alone: an answer true gives (false, nil), an error
    fails the call with a wrap of it, and an answer false hands over to
    [evaluateEntitlementData]. *)
Theorem evaluateWithEntitlements_no_linked_wallets
    (ca : chainAuth) (args : ChainAuthArgs) (entitlements : list Entitlement) (st : State) :
  linkedWallets args = EmptyString ->
  let asked := record (CallIsBanned (spaceId args) [zeroAddress]) st in
  evaluateWithEntitlements ca args zeroAddress entitlements st = (Ok true, st)
  /\ forall owner,
       owner <> zeroAddress ->
       (exists evs,
          appended st (snd (evaluateWithEntitlements ca args owner entitlements st))
            (CallIsBanned (spaceId args) [zeroAddress] :: evs))
       /\ (IsBanned (spaceContract ca) (spaceId args) [zeroAddress] = Ok true ->
           evaluateWithEntitlements ca args owner entitlements st = (Ok false, asked))
       /\ (forall err,
             IsBanned (spaceContract ca) (spaceId args) [zeroAddress] = Fail err ->
             exists e,
               evaluateWithEntitlements ca args owner entitlements st = (Fail e, asked)
               /\ Unwrap e = Some err)
       /\ (IsBanned (spaceContract ca) (spaceId args) [zeroAddress] = Ok false ->
           evaluateWithEntitlements ca args owner entitlements st
           = orWrap (evaluateEntitlementData ca entitlements args)
               (fun err => Func "evaluateEntitlements" (AsRiverError err None)) asked).
Proof.
  intros Hempty asked.
  assert (Hw : deserializeWallets (linkedWallets args) = [zeroAddress])
    by (rewrite Hempty; reflexivity).
  split.
  - unfold evaluateWithEntitlements. rewrite Hw.
    cbn [hasWallet]. now rewrite Address_eqb_refl.
  - intros owner Hne.
    assert (Hout : hasWallet owner [zeroAddress] = false).
    { apply hasWallet_not_In. intros [H|[]]. now apply Hne. }
    assert (Htrue : IsBanned (spaceContract ca) (spaceId args) [zeroAddress] = Ok true ->
                    evaluateWithEntitlements ca args owner entitlements st
                    = (Ok false, asked)).
    { intro Hban. unfold evaluateWithEntitlements. rewrite Hw, Hout.
      unfold bind, orWrap, call. rewrite Hban. reflexivity. }
    assert (Hfail : forall err,
               IsBanned (spaceContract ca) (spaceId args) [zeroAddress] = Fail err ->
               exists e,
                 evaluateWithEntitlements ca args owner entitlements st = (Fail e, asked)
                 /\ Unwrap e = Some err).
    { intros err Hban. unfold evaluateWithEntitlements. rewrite Hw, Hout.
      unfold bind, orWrap, call. rewrite Hban. eexists. split; reflexivity. }
    assert (Hfalse : IsBanned (spaceContract ca) (spaceId args) [zeroAddress] = Ok false ->
                     evaluateWithEntitlements ca args owner entitlements st
                     = orWrap (evaluateEntitlementData ca entitlements args)
                         (fun err => Func "evaluateEntitlements" (AsRiverError err None))
                         asked).
    { intro Hban. unfold evaluateWithEntitlements. rewrite Hw, Hout.
      unfold bind, orWrap, call. rewrite Hban. reflexivity. }
    split; [|split; [exact Htrue | split; [exact Hfail | exact Hfalse]]].
    unfold appended.
    destruct (IsBanned (spaceContract ca) (spaceId args) [zeroAddress]) as [[|]|err] eqn:Hban.
    + rewrite (Htrue eq_refl). exists []. reflexivity.
    + rewrite (Hfalse eq_refl). unfold orWrap, evaluateEntitlementData.
      destruct (evaluateEntitlements_appends ca
                  (deserializeWallets (linkedWallets args)) entitlements asked)
        as (evs & Hevs).
      exists evs.
      destruct (evaluateEntitlements ca (deserializeWallets (linkedWallets args))
                  entitlements asked) as [[b|e] st2];
        cbn [snd] in *; rewrite Hevs; cbn; now rewrite <- app_assoc.
    + destruct (Hfail err eq_refl) as (e & He & _). rewrite He. exists []. reflexivity.
Qed.

(** ** Serialized wallets *)

Lemma length_Split_comma (s : string) :
  List.length (Split_comma s) = S (countCommas s).
Proof.
  induction s as [|c s IH]; [reflexivity|].
  cbn [Split_comma countCommas]. destruct (Ascii.eqb c ",").
  - cbn [List.length]. now rewrite IH.
  - destruct (Split_comma s) as [|f fs]; [discriminate IH|]. exact IH.
Qed.

(** X10. [deserializeWallets] returns one address more than the text has
    commas, whatever the text: never the empty list. *)
Theorem deserializeWallets_length (serialized : string) :
  List.length (deserializeWallets serialized) = S (countCommas serialized).
Proof.
  unfold deserializeWallets. rewrite length_map. apply length_Split_comma.
Qed.

(** X11. The text written by [withLinkedWallets] determines the wallets:
    two lists of wallets with the same text are the same list, in the same
    order. *)
Theorem withLinkedWallets_injective (args args' : ChainAuthArgs) (ws ws' : list Address) :
  linkedWallets (withLinkedWallets args ws) = linkedWallets (withLinkedWallets args' ws') ->
  ws = ws'.
Proof.
  cbn [withLinkedWallets linkedWallets].
  destruct ws as [|a ws], ws' as [|a' ws']; [reflexivity | | |].
  - rewrite writeWallets_first, Address_Hex_unfold. discriminate.
  - rewrite writeWallets_first, Address_Hex_unfold. discriminate.
  - rewrite !writeWallets_first. intro E.
    rewrite <- (deserialize_more a ws), <- (deserialize_more a' ws'). now rewrite E.
Qed.

(** ** Reasons *)

(** X12. Whenever the evaluation of a space request returns, its reason
    is SPACE_ENTITLEMENTS, and that of a channel request
    CHANNEL_ENTITLEMENTS: also when the owner check or the ban check has
    decided. *)
Theorem isEntitledUncached_reason (ca : chainAuth) (args : ChainAuthArgs)
    (st st' : State) (r : boolCacheResult) :
  (isEntitledToSpaceUncached ca args st = (Ok r, st') ->
   bcr_reason r = EntitlementResultReason_SPACE_ENTITLEMENTS)
  /\ (isEntitledToChannelUncached ca args st = (Ok r, st') ->
      bcr_reason r = EntitlementResultReason_CHANNEL_ENTITLEMENTS).
Proof.
  split.
  - unfold isEntitledToSpaceUncached. unfold bind at 1.
    destruct (orWrap (executeUsingCache entitlementManagerCacheRef args
                        (getSpaceEntitlementsForPermissionUncached ca)) _ st)
      as [[[cached hit]|e] st1]; [|discriminate].
    unfold bind at 1. unfold inc at 1. unfold bind at 1.
    destruct (orWrap (evaluateWithEntitlements ca args (owner cached)
                        (entitlementData cached)) _ _) as [[b|e] st2]; [|discriminate].
    intros [= <- _]. reflexivity.
  - unfold isEntitledToChannelUncached. unfold bind at 1.
    destruct (orWrap (executeUsingCache entitlementManagerCacheRef args
                        (getChannelEntitlementsForPermissionUncached ca)) _ st)
      as [[[cached hit]|e] st1]; [|discriminate].
    unfold bind at 1. unfold inc at 1. unfold bind at 1.
    destruct (orWrap (evaluateWithEntitlements ca args (owner cached)
                        (entitlementData cached)) _ _) as [[b|e] st2]; [|discriminate].
    intros [= <- _]. reflexivity.
Qed.


(** ** Building requests *)

Lemma spelling_lower (c : ascii) : spelling false c = c.
Proof. unfold spelling. now rewrite andb_false_r. Qed.

Lemma Hex2Bytes_hexEncode (bs : list byte) : Hex2Bytes (hexEncode bs) = bs.
Proof.
  induction bs as [|v bs IH]; [reflexivity|].
  cbn [hexEncode].
  rewrite <- (spelling_lower (hexdigit (N.shiftr (Byte.to_N v) 4))).
  rewrite <- (spelling_lower (hexdigit (N.land (Byte.to_N v) 15))).
  rewrite Hex2Bytes_digits. now rewrite IH.
Qed.

Lemma FromHex_digits (bs : list byte) : FromHex (hexEncode bs) = bs.
Proof.
  unfold FromHex.
  assert (Hp : has0xPrefix (hexEncode bs) = false).
  { destruct bs as [|v bs]; [reflexivity|]. destruct v; reflexivity. }
  rewrite Hp, length_hexEncode.
  replace (Nat.odd (2 * List.length bs)) with false.
  - apply Hex2Bytes_hexEncode.
  - symmetry. rewrite <- Nat.negb_even, Nat.even_mul. reflexivity.
Qed.

Lemma HexToAddress_hex (a : Address) : HexToAddress (Address_hex a) = a.
Proof.
  unfold HexToAddress, FromHex, Address_hex.
  cbn [String.append has0xPrefix Ascii.eqb Bool.eqb andb orb
       String.length String.substring Nat.sub].
  rewrite Nat.sub_0_r, substring_whole, length_hexEncode.
  replace (Nat.odd (2 * List.length (fixedBytes a))) with false.
  - rewrite Hex2Bytes_hexEncode. apply SetBytes_fixedBytes.
  - symmetry. rewrite <- Nat.negb_even, Nat.even_mul. reflexivity.
Qed.

Lemma HexToAddress_digits (a : Address) : HexToAddress (hexEncode (fixedBytes a)) = a.
Proof. unfold HexToAddress. rewrite FromHex_digits. apply SetBytes_fixedBytes. Qed.

(** X13. The requests built from the text of an address are requests of
    that address: for each of the three builders the user id may be the
    checksummed text, the lower-case text, or the 40 digits without the 0x
    prefix. *)
Theorem NewChainAuthArgs_principal (a : Address) (spaceId channelId : StreamId)
    (p : Permission) (userId : string) :
  userId = Address_Hex a \/ userId = Address_hex a \/ userId = hexEncode (fixedBytes a) ->
  principal (NewChainAuthArgsForSpace spaceId userId p) = a
  /\ principal (NewChainAuthArgsForChannel spaceId channelId userId p) = a
  /\ principal (NewChainAuthArgsForIsSpaceMember spaceId userId) = a.
Proof.
  intro Htext.
  cbn [principal NewChainAuthArgsForSpace NewChainAuthArgsForChannel
       NewChainAuthArgsForIsSpaceMember].
  assert (H : HexToAddress userId = a).
  { destruct Htext as [-> | [-> | ->]].
    - apply HexToAddress_Hex.
    - apply HexToAddress_hex.
    - apply HexToAddress_digits. }
  rewrite H. repeat split.
Qed.

Lemma fixedBytes_fill (n : nat) (l : list byte) :
  fixedBytes (fill n l) = firstn n l ++ repeat x00 (n - List.length l).
Proof.
  unfold fixedBytes. revert l; induction n as [|n IH]; intro l.
  - cbn [fill]. rewrite Vector.to_list_nil. reflexivity.
  - destruct l as [|b l]; cbn [fill]; rewrite Vector.to_list_cons, IH.
    + rewrite !firstn_nil. cbn [List.length app]. now rewrite !Nat.sub_0_r.
    + reflexivity.
Qed.

Lemma fixedBytes_SetBytes (n : nat) (b : list byte) :
  fixedBytes (SetBytes n b)
  = repeat x00 (n - List.length b) ++ skipn (List.length b - n) b.
Proof.
  unfold SetBytes. rewrite fixedBytes_fill.
  destruct (Nat.ltb_spec n (List.length b)) as [Hlt|Hge].
  - rewrite length_skipn.
    replace (n - (List.length b - (List.length b - n))) with 0 by lia.
    replace (n - List.length b) with 0 by lia.
    cbn [repeat app]. rewrite length_skipn.
    replace (n - (List.length b - (List.length b - n))) with 0 by lia.
    cbn [repeat]. rewrite app_nil_r.
    apply firstn_all2. rewrite length_skipn. lia.
  - replace (List.length b - n) with 0 by lia. cbn [skipn].
    rewrite length_app, repeat_length.
    replace (n - (n - List.length b + List.length b)) with 0 by lia.
    cbn [repeat]. rewrite app_nil_r.
    apply firstn_all2. rewrite length_app, repeat_length. lia.
Qed.

(** X14. The request built by [NewChainAuthArgsForIsWalletLinked] takes
    the last 20 bytes of each slice, zero-filled on the left when the slice
    is shorter; a slice of 20 bytes is taken as it is. *)
Theorem NewChainAuthArgsForIsWalletLinked_bytes (user wallet : list byte) :
  let args := NewChainAuthArgsForIsWalletLinked user wallet in
  fixedBytes (principal args)
  = repeat x00 (20 - List.length user) ++ skipn (List.length user - 20) user
  /\ fixedBytes (walletAddress args)
     = repeat x00 (20 - List.length wallet) ++ skipn (List.length wallet - 20) wallet
  /\ (List.length user = 20 -> fixedBytes (principal args) = user)
  /\ (List.length wallet = 20 -> fixedBytes (walletAddress args) = wallet)
  /\ kind args = chainAuthKindIsWalletLinked.
Proof.
  intro args. unfold args.
  cbn [principal walletAddress NewChainAuthArgsForIsWalletLinked kind].
  unfold BytesToAddress. rewrite !fixedBytes_SetBytes. change AddressLength with 20.
  repeat split.
  - intro H. rewrite H. reflexivity.
  - intro H. rewrite H. reflexivity.
Qed.


(** ** Construction *)

(** X15. An authorizer built by [NewChainAuth] has a positive wallet limit
    and a positive timeout, whatever was configured, and a wallet link
    contract; it starts with an empty history.  [NewChainAuth] fails only
    with the error of one of the six constructors it calls. *)
Theorem NewChainAuth_result (blockchain : Blockchain) (evaluator : Evaluator)
    (newSpaceContract : Result SpaceContract) (newWalletLink : Result WalletLink)
    (c1 : Result (Cache boolCacheResult)) (c2 : Result (Cache membershipStatusCacheResult))
    (c3 : Result (Cache entitlementCacheResult)) (c4 : Result (Cache linkedWalletCacheValue))
    (limit timeout t : Z) :
  let built :=
    NewChainAuth blockchain evaluator newSpaceContract newWalletLink c1 c2 c3 c4
      limit timeout t in
  (forall ca st,
     built = Ok (ca, st) ->
     (0 < linkedWalletsLimit ca)%Z
     /\ (0 < contractCallsTimeoutMs ca)%Z
     /\ ((0 < timeout)%Z -> contractCallsTimeoutMs ca = timeout)
     /\ ((timeout <= 0)%Z -> contractCallsTimeoutMs ca = 10000%Z)
     /\ walletLinkContract ca <> None
     /\ history st = [])
  /\ (forall err,
        built = Fail err ->
        newSpaceContract = Fail err \/ newWalletLink = Fail err
        \/ c1 = Fail err \/ c2 = Fail err \/ c3 = Fail err \/ c4 = Fail err).
Proof.
  intro built. unfold built, NewChainAuth. split.
  - intros ca st.
    destruct newSpaceContract, newWalletLink, c1, c2, c3, c4; try discriminate.
    intros [= <- <-]. cbn [linkedWalletsLimit contractCallsTimeoutMs walletLinkContract history].
    unfold DEFAULT_MAX_WALLETS, DEFAULT_REQUEST_TIMEOUT_MS.
    destruct (Z.leb_spec limit 0), (Z.leb_spec timeout 0);
      repeat split; try lia; discriminate.
  - intros err.
    destruct newSpaceContract; [|intros [= ->]; now left].
    destruct newWalletLink; [|intros [= ->]; right; now left].
    destruct c1; [|intros [= ->]; right; right; now left].
    destruct c2; [|intros [= ->]; right; right; right; now left].
    destruct c3; [|intros [= ->]; right; right; right; right; now left].
    destruct c4; [discriminate|intros [= ->]; right; right; right; right; now right].
Qed.

(** ** Receipts *)

(** X16. A run of [VerifyReceipt] that returns, returns (true, nil) or
    an error: never (false, nil), so that a receipt that is not verified
    always comes with an error. *)
Theorem VerifyReceipt_false_has_error (ca : chainAuth)
    (userReceipt : protocol.BlockchainTransactionReceipt) :
  VerifyReceipt ca userReceipt = Returns (Ok true)
  \/ (exists e, VerifyReceipt ca userReceipt = Returns (Fail e))
  \/ VerifyReceipt ca userReceipt = Panics.
Proof.
  unfold VerifyReceipt.
  destruct (GetClient (evaluator ca) (protocol.ChainId userReceipt)) as [client|err];
    cbn [andThen]; [|right; left; eexists; reflexivity].
  destruct (TransactionReceipt client (BytesToHash (protocol.TransactionHash userReceipt)))
    as [chainReceipt|err];
    [|destruct (Is_NotFound err); right; left; eexists; reflexivity].
  destruct (negb (Uint64 (ethTypes.BlockNumber chainReceipt)
                  =? protocol.BlockNumber userReceipt)%Z);
    [right; left; eexists; reflexivity|].
  destruct (negb (List.length (ethTypes.Logs chainReceipt)
                  =? List.length (protocol.Logs userReceipt))%nat);
    [right; left; eexists; reflexivity|].
  destruct (compareLogs 0 (ethTypes.Logs chainReceipt) (protocol.Logs userReceipt))
    as [[[]|err]|]; cbn [andThen];
    [|right; left; eexists; reflexivity|right; right; reflexivity].
  destruct (TransactionByHash client (BytesToHash (protocol.TransactionHash userReceipt)))
    as [[tx isPending]|err]; cbn [andThen]; [|right; left; eexists; reflexivity].
  destruct isPending; [right; left; eexists; reflexivity|].
  destruct (ethTypes.To tx) as [to|]; [|right; right; reflexivity].
  destruct (negb (bytes_Equal (fixedBytes to) (protocol.To userReceipt)));
    [right; left; eexists; reflexivity|].
  destruct (ethTypes.Sender tx) as [sender|err]; cbn [andThen];
    [|right; left; eexists; reflexivity].
  destruct (negb (bytes_Equal (fixedBytes sender) (protocol.From userReceipt)));
    [right; left; eexists; reflexivity|].
  destruct (BlockNumber (Client (blockchain ca))) as [latest|err];
    [|right; left; eexists; reflexivity].
  destruct (sub64 latest (Uint64 (ethTypes.BlockNumber chainReceipt)) <? 1)%Z;
    [right; left; eexists; reflexivity | left; reflexivity].
Qed.

Lemma length_fixedBytes (n : nat) (a : FixedBytes n) : List.length (fixedBytes a) = n.
Proof. apply Vector.length_to_list. Qed.

(** X17. A receipt is verified only if its addresses have exactly 20
    bytes and its topics exactly 32: the to and from fields, the address
    of every log and every topic of every log. *)
Theorem VerifyReceipt_field_lengths (ca : chainAuth)
    (userReceipt : protocol.BlockchainTransactionReceipt) :
  VerifyReceipt ca userReceipt = Returns (Ok true) ->
  List.length (protocol.To userReceipt) = 20
  /\ List.length (protocol.From userReceipt) = 20
  /\ Forall (fun uploadedLog =>
               List.length (protocol.Address uploadedLog) = 20
               /\ Forall (fun topic => List.length topic = 32) (protocol.Topics uploadedLog))
       (protocol.Logs userReceipt).
Proof.
  intro H. apply VerifyReceipt_true_only in H.
  destruct H as (client & chainReceipt & tx & to & sender
                 & _ & _ & _ & Hlogs & _ & _ & Hto & _ & Hfrom).
  split; [rewrite <- Hto; apply length_fixedBytes|].
  split; [rewrite <- Hfrom; apply length_fixedBytes|].
  induction Hlogs as [|c u cs us (Ha & Ht & _) _ IH]; constructor; [|exact IH].
  split; [rewrite <- Ha; apply length_fixedBytes|].
  rewrite <- Ht. apply Forall_map. apply Forall_forall. intros topic _.
  apply length_fixedBytes.
Qed.

(** X18. The errors of the collaborators of [VerifyReceipt]: the error of
    [GetClient], of [TransactionByHash] and of the sender recovery are
    returned as they are, each as soon as it occurs; a failure to read the
    latest block number is returned as PERMISSION_DENIED. *)
Theorem VerifyReceipt_collaborator_errors (ca : chainAuth)
    (userReceipt : protocol.BlockchainTransactionReceipt) (err : error) :
  let txHash := BytesToHash (protocol.TransactionHash userReceipt) in
  (GetClient (evaluator ca) (protocol.ChainId userReceipt) = Fail err ->
   VerifyReceipt ca userReceipt = Returns (Fail err))
  /\ (forall client chainReceipt,
        GetClient (evaluator ca) (protocol.ChainId userReceipt) = Ok client ->
        TransactionReceipt client txHash = Ok chainReceipt ->
        Uint64 (ethTypes.BlockNumber chainReceipt) = protocol.BlockNumber userReceipt ->
        Forall2 sameLog (ethTypes.Logs chainReceipt) (protocol.Logs userReceipt) ->
        (TransactionByHash client txHash = Fail err ->
         VerifyReceipt ca userReceipt = Returns (Fail err))
        /\ (forall tx to,
              TransactionByHash client txHash = Ok (tx, false) ->
              ethTypes.To tx = Some to ->
              fixedBytes to = protocol.To userReceipt ->
              ethTypes.Sender tx = Fail err ->
              VerifyReceipt ca userReceipt = Returns (Fail err)))
  /\ (comparisonsSucceed ca userReceipt ->
      BlockNumber (Client (blockchain ca)) = Fail err ->
      denied ca userReceipt "Failed to get latest block number: %v").
Proof.
  intro txHash. split; [|split].
  - intro Hc. unfold VerifyReceipt. rewrite Hc. reflexivity.
  - intros client chainReceipt Hc Hr Hbn Hlogs.
    unfold VerifyReceipt. fold txHash. rewrite Hc. cbn [andThen]. rewrite Hr.
    rewrite Hbn, Z.eqb_refl. cbn [negb].
    rewrite (Forall2_length Hlogs), Nat.eqb_refl. cbn [negb].
    rewrite (compareLogs_all_same _ _ _ Hlogs). cbn [andThen]. split.
    + intro Htx. rewrite Htx. reflexivity.
    + intros tx to Htx Hto Heq Hs. rewrite Htx. cbn [andThen]. rewrite Hto.
      rewrite (proj2 (bytes_Equal_true _ _) Heq). cbn [negb].
      rewrite Hs. reflexivity.
  - intros Hcmp Hb. unfold denied.
    rewrite (VerifyReceipt_after_comparisons _ _ Hcmp), Hb. reflexivity.
Qed.

Lemma SetBytes_suffix (n : nat) (extra b : list byte) :
  List.length b = n -> SetBytes n (extra ++ b) = SetBytes n b.
Proof.
  intro Hlen. apply Vector.to_list_inj. change (@Vector.to_list byte n) with (@fixedBytes n).
  rewrite !fixedBytes_SetBytes, length_app, Hlen.
  replace (n - (List.length extra + n)) with 0 by lia.
  replace (List.length extra + n - n) with (List.length extra) by lia.
  rewrite Nat.sub_diag. cbn [repeat app skipn].
  rewrite skipn_app, Nat.sub_diag, skipn_all. reflexivity.
Qed.

(** X19. Only the last 32 bytes of the uploaded transaction hash count: a
    receipt whose 32-byte hash is preceded by any bytes is verified exactly
    as the receipt with the hash alone. *)
Theorem VerifyReceipt_hash_suffix (ca : chainAuth)
    (userReceipt : protocol.BlockchainTransactionReceipt) (extra : list byte) :
  List.length (protocol.TransactionHash userReceipt) = 32 ->
  VerifyReceipt ca
    (withTransactionHash userReceipt (extra ++ protocol.TransactionHash userReceipt))
  = VerifyReceipt ca userReceipt.
Proof.
  intro Hlen. unfold VerifyReceipt, withTransactionHash.
  cbn [protocol.ChainId protocol.TransactionHash protocol.BlockNumber
       protocol.To protocol.From protocol.Logs].
  unfold BytesToHash. rewrite (SetBytes_suffix HashLength extra _ Hlen). reflexivity.
Qed.


(** ** The enabled check of a channel *)

(** X20. For a channel request the enabled check is about the channel
    alone and never asks whether the space is disabled: with a fresh cached
    answer it only counts the hit; otherwise it asks [IsChannelDisabled]
    once, then counts the miss when the contract answers, and appends
    nothing more when the contract fails. *)
Theorem checkStreamIsEnabled_channel (ca : chainAuth) (args : ChainAuthArgs) (st : State) :
  kind args = chainAuthKindChannel ->
  let key := newArgsForEnabledChannel (spaceId args) (channelId args) in
  let asks := CallIsChannelDisabled (spaceId args) (channelId args) in
  let st' := snd (checkStreamIsEnabled ca args st) in
  (forall v,
     lookupFresh (entitlementCache st) (now st) key = Some v ->
     appended st st' [Inc isChannelEnabledCacheHit])
  /\ (lookupFresh (entitlementCache st) (now st) key = None ->
      (forall disabled,
         IsChannelDisabled (spaceContract ca) (spaceId args) (channelId args) = Ok disabled ->
         appended st st' [asks; Inc isChannelEnabledCacheMiss])
      /\ (forall err,
            IsChannelDisabled (spaceContract ca) (spaceId args) (channelId args) = Fail err ->
            appended st st' [asks]
            /\ fst (checkStreamIsEnabled ca args st) = Fail err))
  /\ (forall evs spaceId',
        appended st st' evs -> ~ In (CallIsSpaceDisabled spaceId') evs).
Proof.
  intros Hk key asks st'.
  assert (Hhit : forall v,
             lookupFresh (entitlementCache st) (now st) key = Some v ->
             appended st st' [Inc isChannelEnabledCacheHit]).
  { intros v L. unfold st', checkStreamIsEnabled. rewrite Hk. unfold checkChannelEnabled.
    rewrite (bind_Ok _ _ _ _ _ (executeUsingCache_hit entitlementCacheRef _ _ st v L)).
    reflexivity. }
  assert (Hok : lookupFresh (entitlementCache st) (now st) key = None ->
                forall disabled,
                  IsChannelDisabled (spaceContract ca) (spaceId args) (channelId args)
                  = Ok disabled ->
                  appended st st' [asks; Inc isChannelEnabledCacheMiss]).
  { intros L disabled D. unfold st', checkStreamIsEnabled. rewrite Hk.
    unfold checkChannelEnabled.
    erewrite bind_Ok.
    2:{ apply executeUsingCache_miss_Ok; [exact L|].
        unfold isChannelEnabledUncached, bind, call.
        cbn [spaceId channelId newArgsForEnabledChannel].
        rewrite D. reflexivity. }
    unfold appended. cbn. now rewrite <- app_assoc. }
  assert (Hfail : lookupFresh (entitlementCache st) (now st) key = None ->
                  forall err,
                    IsChannelDisabled (spaceContract ca) (spaceId args) (channelId args)
                    = Fail err ->
                    appended st st' [asks]
                    /\ fst (checkStreamIsEnabled ca args st) = Fail err).
  { intros L err D. unfold st', checkStreamIsEnabled. rewrite Hk.
    unfold checkChannelEnabled.
    erewrite bind_Fail.
    2:{ apply executeUsingCache_miss_Fail; [exact L|].
        unfold isChannelEnabledUncached, bind, call.
        cbn [spaceId channelId newArgsForEnabledChannel].
        rewrite D. reflexivity. }
    split; reflexivity. }
  split; [exact Hhit|]. split; [intro L; split; [exact (Hok L) | exact (Hfail L)]|].
  intros evs spaceId' Hevs Hin.
  assert (Hcases : evs = [Inc isChannelEnabledCacheHit]
                   \/ evs = [asks; Inc isChannelEnabledCacheMiss]
                   \/ evs = [asks]).
  { unfold appended in Hevs.
    destruct (lookupFresh (entitlementCache st) (now st) key) as [v|] eqn:L.
    - left. pose proof (Hhit v eq_refl) as H. unfold appended in H.
      rewrite H in Hevs. now apply app_inv_head in Hevs.
    - destruct (IsChannelDisabled (spaceContract ca) (spaceId args) (channelId args))
        as [d|err] eqn:D.
      + right. left. pose proof (Hok eq_refl d eq_refl) as H. unfold appended in H.
        rewrite H in Hevs. now apply app_inv_head in Hevs.
      + right. right. destruct (Hfail eq_refl err eq_refl) as [H _]. unfold appended in H.
        rewrite H in Hevs. now apply app_inv_head in Hevs. }
  destruct Hcases as [-> | [-> | ->]]; cbn in Hin;
    repeat (destruct Hin as [Hin|Hin]; [discriminate Hin|]); exact Hin.
Qed.

End Further.

(* ================================================================== *)
(** * Runs in the small world *)

Section Runs.

#[local] Existing Instance exampleExternals.

Example serialized_wallets :
  linkedWallets (withLinkedWallets (write alice) [alice; bob])
  = "0x00000000000000000000000000000000000000A1,0x00000000000000000000000000000000000000B2".
Proof. reflexivity. Qed.

Example deserialize_empty : deserializeWallets "" = [zeroAddress].
Proof. reflexivity. Qed.

Example alice_is_entitled :
  fst (checkEntitlement ca0 (write alice) freshState)
  = Ok (mkBool true EntitlementResultReason_SPACE_ENTITLEMENTS).
Proof. vm_compute. reflexivity. Qed.

Example carol_is_no_member :
  fst (checkEntitlement ca0 (write carol) freshState)
  = Ok (mkBool false EntitlementResultReason_MEMBERSHIP).
Proof. vm_compute. reflexivity. Qed.

Example dave_cannot_be_checked :
  fst (checkEntitlement ca0 (write dave) freshState)
  = Fail (Wrapped Err_CANNOT_CHECK_ENTITLEMENTS "Error(s) evaluating user space membership"
            ["checkEntitlement"; "principal"; "permission"; "wallets"; "spaceId"]
            (External "membership status unavailable")).
Proof. vm_compute. reflexivity. Qed.

Example confirmed_receipt : VerifyReceipt ca0 (exampleReceipt 10) = Returns (Ok true).
Proof. vm_compute. reflexivity. Qed.

Example unconfirmed_receipt :
  denied (exampleChainAuth 10) (exampleReceipt 10) "Transaction has 0 confirmations.".
Proof. vm_compute. reflexivity. Qed.

Example read_recomputes_wallets :
  fst (getLinkedWallets ca0 (request chainAuthKindSpace townSquare [] alice PermissionRead)
         warmState)
  = Ok [alice; dave].
Proof. vm_compute. reflexivity. Qed.

Lemma evaluateWithEntitlements_owner_before_ban_witness :
  evaluateWithEntitlements ca0 (withLinkedWallets (write bob) [bob; spaceOwner])
    spaceOwner exampleEntitlements freshState
  = (Ok true, freshState).
Proof.
  apply (proj1 (evaluateWithEntitlements_owner_before_ban ca0
                  (withLinkedWallets (write bob) [bob; spaceOwner])
                  spaceOwner exampleEntitlements freshState)).
  vm_compute. right. left. reflexivity.
Defined.

Lemma evaluateEntitlementData_first_true_witness :
  evaluateEntitlementData ca0 exampleEntitlements
    (withLinkedWallets (write alice) [alice]) freshState
  = evaluateEntitlementData ca0 [failingRule; openList]
      (withLinkedWallets (write alice) [alice]) freshState.
Proof.
  destruct (evaluateEntitlementData_first_true ca0 exampleEntitlements
              (withLinkedWallets (write alice) [alice]) freshState)
    as (_ & _ & _ & _ & H & _).
  apply (H [failingRule] openList [legacyRule]).
  - reflexivity.
  - constructor; [vm_compute; reflexivity | constructor].
  - vm_compute. reflexivity.
Defined.

Lemma checkEntitlement_membership_outcome_witness :
  checkEntitlement ca0 (write bob) freshState
  = (Ok (mkBool false EntitlementResultReason_MEMBERSHIP_EXPIRED), snd (probesOf (write bob))).
Proof.
  assert (H1 : checkStreamIsEnabled ca0 (write bob) freshState
               = (Ok (true, EntitlementResultReason_SPACE_DISABLED), afterEnabled (write bob)))
    by (vm_compute; reflexivity).
  assert (H2 : getLinkedWallets ca0 (write bob) (afterEnabled (write bob))
               = (Ok (walletsOf (write bob)), afterWallets (write bob)))
    by (vm_compute; reflexivity).
  assert (H3 : kind (write bob) <> chainAuthKindIsWalletLinked) by (simpl; discriminate).
  assert (H4 : (Z.of_nat (List.length (walletsOf (write bob))) <= linkedWalletsLimit ca0)%Z)
    by (vm_compute; discriminate).
  assert (H5 : runMembershipChecks ca0 (spaceId (write bob))
                 (completionOrder (walletsOf (write bob)))
                 {| isMemberResults := []; isMemberError := [] |} (afterWallets (write bob))
               = (fst (probesOf (write bob)), snd (probesOf (write bob))))
    by (vm_compute; reflexivity).
  destruct (checkEntitlement_membership_outcome ca0 (write bob) freshState _ _ _ _ _ _
              H1 H2 H3 H4 H5) as (_ & _ & _ & H & _).
  apply H.
  - vm_compute. apply Exists_cons_hd. reflexivity.
  - vm_compute. constructor; [intros _; reflexivity | constructor].
Defined.

Lemma checkEntitlement_disabled_witness :
  fst (checkEntitlement ca0 (request chainAuthKindSpace closedTown [] alice PermissionWrite)
         freshState)
  = Ok (mkBool false EntitlementResultReason_SPACE_DISABLED).
Proof.
  destruct (proj1 (checkEntitlement_disabled ca0
                     (request chainAuthKindSpace closedTown [] alice PermissionWrite)
                     freshState))
    as (st' & E & _).
  - left. reflexivity.
  - vm_compute. reflexivity.
  - vm_compute. reflexivity.
  - rewrite E. reflexivity.
Defined.

Lemma checkEntitlement_wallet_cap_witness :
  exists e,
    checkEntitlement ca0 (write erin) freshState = (Fail e, afterWallets (write erin))
    /\ errCode e = Err_RESOURCE_EXHAUSTED.
Proof.
  assert (H1 : kind (write erin) <> chainAuthKindIsWalletLinked) by (simpl; discriminate).
  assert (H2 : checkStreamIsEnabled ca0 (write erin) freshState
               = (Ok (true, EntitlementResultReason_SPACE_DISABLED), afterEnabled (write erin)))
    by (vm_compute; reflexivity).
  assert (H3 : getLinkedWallets ca0 (write erin) (afterEnabled (write erin))
               = (Ok (walletsOf (write erin)), afterWallets (write erin)))
    by (vm_compute; reflexivity).
  apply (proj1 (checkEntitlement_wallet_cap ca0 (write erin) freshState _ _ _ _ H1 H2 H3)).
  vm_compute. reflexivity.
Defined.

Lemma checkEntitlement_IsWalletLinked_witness :
  checkEntitlement ca0 (request chainAuthKindIsWalletLinked [] [] alice PermissionUndefined)
    freshState
  = (Ok (mkBool true EntitlementResultReason_NONE),
     snd (getLinkedWallets ca0
            (request chainAuthKindIsWalletLinked [] [] alice PermissionUndefined) freshState)).
Proof.
  assert (H1 : kind (request chainAuthKindIsWalletLinked [] [] alice PermissionUndefined)
               = chainAuthKindIsWalletLinked) by reflexivity.
  assert (H2 : getLinkedWallets ca0
                 (request chainAuthKindIsWalletLinked [] [] alice PermissionUndefined)
                 freshState
               = (Ok [alice; dave],
                  snd (getLinkedWallets ca0
                         (request chainAuthKindIsWalletLinked [] [] alice PermissionUndefined)
                         freshState)))
    by (vm_compute; reflexivity).
  apply (proj1 (proj2 (checkEntitlement_IsWalletLinked ca0 _ freshState _ _ H1 H2))).
  right. left. reflexivity.
Defined.

Lemma getLinkedWallets_bust_policy_witness :
  getLinkedWallets ca0 (write alice) warmState
  = (Ok [alice; carol], record (Inc linkedWalletCacheHit) warmState).
Proof.
  assert (H1 : walletLinkContract ca0 = Some {| walletLinkAddress := addr 1 |})
    by reflexivity.
  destruct (getLinkedWallets_bust_policy ca0 (write alice) warmState _ H1)
    as (_ & _ & H).
  assert (Hn : ~ freshnessSensitive (write alice))
    by (intros [E|[E|E]]; discriminate E).
  apply (proj2 (H Hn)
           {| result := {| wallets := [alice; carol] |}; insertedAt := 500; positive := true |}).
  vm_compute. reflexivity.
Defined.

Lemma VerifyReceipt_failures_witness :
  denied ca0 (exampleReceipt 11) "Block number mismatch".
Proof.
  assert (H1 : GetClient (evaluator ca0) (protocol.ChainId (exampleReceipt 11))
               = Ok exampleClient) by reflexivity.
  assert (H2 : TransactionReceipt exampleClient
                 (BytesToHash (protocol.TransactionHash (exampleReceipt 11)))
               = Ok {| ethTypes.BlockNumber := 10; ethTypes.Logs := [exampleLog] |})
    by reflexivity.
  destruct (proj1 (VerifyReceipt_failures ca0 (exampleReceipt 11)) exampleClient H1)
    as (_ & H).
  apply (proj1 (H _ H2)).
  vm_compute. discriminate.
Defined.

Lemma deserializeWallets_withLinkedWallets_witness :
  deserializeWallets (linkedWallets (withLinkedWallets (write alice) [alice; bob]))
  = [alice; bob].
Proof.
  apply (proj1 (deserializeWallets_withLinkedWallets (write alice))).
  discriminate.
Defined.

(** C4. The confirmation check subtracts two [uint64]: with the receipt
    in block 10 and the latest block at 5, every comparison succeeding,
    the difference wraps around to a large number and [VerifyReceipt]
    returns true, although the integer difference 5 - 10 is below 1. *)
Theorem VerifyReceipt_accepts_block_ahead_of_latest :
  BlockNumber (Client (blockchain (exampleChainAuth 5))) = Ok 5%Z
  /\ protocol.BlockNumber (exampleReceipt 10) = 10%Z
  /\ sub64 5 10 = (MaxUint64 - 5)%Z
  /\ VerifyReceipt (exampleChainAuth 5) (exampleReceipt 10) = Returns (Ok true).
Proof.
  repeat split; vm_compute; reflexivity.
Qed.

Lemma checkEntitlement_unknown_kind_witness :
  exists e,
    checkEntitlement ca0 (newArgsForEnabledSpace townSquare) freshState = (Fail e, freshState)
    /\ errCode e = Err_INTERNAL
    /\ errMessage e = "Unknown chain auth kind".
Proof.
  apply (checkEntitlement_unknown_kind ca0 (newArgsForEnabledSpace townSquare) freshState).
  left. reflexivity.
Defined.

Lemma receiveResults_flags_witness :
  receiveResults [ {| status := notMember |}; {| status := member true |} ] false true
  = receiveResults [ {| status := member true |}; {| status := notMember |} ] false true.
Proof.
  apply (proj2 (receiveResults_flags
                  [ {| status := member true |}; {| status := notMember |} ])).
  apply perm_swap.
Defined.

Lemma checkEntitlement_IsSpaceMember_witness :
  checkEntitlement ca0 (join alice) freshState
  = (Ok (mkBool true EntitlementResultReason_NONE), snd (probesOf (join alice))).
Proof.
  assert (H0 : kind (join alice) = chainAuthKindIsSpaceMember) by reflexivity.
  assert (H1 : checkStreamIsEnabled ca0 (join alice) freshState
               = (Ok (true, EntitlementResultReason_SPACE_DISABLED), afterEnabled (join alice)))
    by (vm_compute; reflexivity).
  assert (H2 : getLinkedWallets ca0 (join alice) (afterEnabled (join alice))
               = (Ok (walletsOf (join alice)), afterWallets (join alice)))
    by (vm_compute; reflexivity).
  assert (H4 : (Z.of_nat (List.length (walletsOf (join alice))) <= linkedWalletsLimit ca0)%Z)
    by (vm_compute; discriminate).
  assert (H5 : runMembershipChecks ca0 (spaceId (join alice))
                 (completionOrder (walletsOf (join alice)))
                 {| isMemberResults := []; isMemberError := [] |} (afterWallets (join alice))
               = (fst (probesOf (join alice)), snd (probesOf (join alice))))
    by (vm_compute; reflexivity).
  apply (checkEntitlement_IsSpaceMember ca0 (join alice) freshState _ _ _ _ _ _
           H0 H1 H2 H4 H5).
  vm_compute. apply Exists_cons_hd. split; reflexivity.
Defined.

Lemma evaluateEntitlementData_without_rules_witness :
  exists b,
    evaluateEntitlementData ca0 [openList] (write alice) freshState = (Ok b, freshState)
    /\ (b = true <->
        Exists (userListPasses (deserializeWallets (linkedWallets (write alice))))
          [openList]).
Proof.
  apply (evaluateEntitlementData_without_rules ca0 [openList] (write alice) freshState).
  constructor; [split; discriminate | constructor].
Defined.

Lemma evaluateWithEntitlements_ban_error_witness :
  exists e,
    evaluateWithEntitlements unsureChainAuth (withLinkedWallets (write alice) [alice])
      spaceOwner exampleEntitlements freshState
    = (Fail e,
       record (CallIsBanned townSquare
                 (deserializeWallets
                    (linkedWallets (withLinkedWallets (write alice) [alice]))))
         freshState)
    /\ Unwrap e = Some (External "ban list unavailable").
Proof.
  apply (evaluateWithEntitlements_ban_error unsureChainAuth
           (withLinkedWallets (write alice) [alice]) spaceOwner exampleEntitlements
           freshState (External "ban list unavailable")).
  - vm_compute. intros [H|[]]. discriminate H.
  - reflexivity.
Defined.

Lemma evaluateWithEntitlements_not_banned_witness :
  snd (evaluateWithEntitlements ca0 (withLinkedWallets (write alice) [alice])
         spaceOwner exampleEntitlements freshState)
  = snd (evaluateEntitlementData ca0 exampleEntitlements
           (withLinkedWallets (write alice) [alice])
           (record (CallIsBanned townSquare
                      (deserializeWallets
                         (linkedWallets (withLinkedWallets (write alice) [alice]))))
              freshState)).
Proof.
  assert (H1 : ~ In spaceOwner
                 (deserializeWallets (linkedWallets (withLinkedWallets (write alice) [alice]))))
    by (vm_compute; intros [H|[]]; discriminate H).
  assert (H2 : IsBanned (spaceContract ca0)
                 (spaceId (withLinkedWallets (write alice) [alice]))
                 (deserializeWallets (linkedWallets (withLinkedWallets (write alice) [alice])))
               = Ok false)
    by (vm_compute; reflexivity).
  apply (proj1 (evaluateWithEntitlements_not_banned ca0
                  (withLinkedWallets (write alice) [alice]) spaceOwner
                  exampleEntitlements freshState H1 H2)).
Defined.

Lemma evaluateWithEntitlements_no_linked_wallets_witness :
  evaluateWithEntitlements ca0 (write alice) zeroAddress exampleEntitlements freshState
  = (Ok true, freshState).
Proof.
  apply (proj1 (evaluateWithEntitlements_no_linked_wallets ca0 (write alice)
                  exampleEntitlements freshState eq_refl)).
Defined.

Lemma withLinkedWallets_injective_witness :
  [alice; bob] = [alice; bob].
Proof.
  apply (withLinkedWallets_injective (write alice) (write carol) [alice; bob] [alice; bob]).
  reflexivity.
Defined.

Lemma isEntitledUncached_reason_witness :
  bcr_reason (mkBool true EntitlementResultReason_SPACE_ENTITLEMENTS)
  = EntitlementResultReason_SPACE_ENTITLEMENTS.
Proof.
  apply (proj1 (isEntitledUncached_reason ca0
                  (withLinkedWallets (write alice) [alice; spaceOwner]) freshState
                  (snd (isEntitledToSpaceUncached ca0
                          (withLinkedWallets (write alice) [alice; spaceOwner]) freshState))
                  (mkBool true EntitlementResultReason_SPACE_ENTITLEMENTS))).
  vm_compute. reflexivity.
Defined.

Lemma NewChainAuthArgsForIsWalletLinked_bytes_witness :
  fixedBytes (principal (NewChainAuthArgsForIsWalletLinked (fixedBytes alice) (fixedBytes bob)))
  = fixedBytes alice.
Proof.
  apply (proj1 (proj2 (proj2 (NewChainAuthArgsForIsWalletLinked_bytes
                                (fixedBytes alice) (fixedBytes bob))))).
  reflexivity.
Defined.

Lemma NewChainAuth_result_witness :
  (0 < linkedWalletsLimit ca0)%Z
  /\ (0 < contractCallsTimeoutMs ca0)%Z
  /\ ((0 < 0)%Z -> contractCallsTimeoutMs ca0 = 0%Z)
  /\ ((0 <= 0)%Z -> contractCallsTimeoutMs ca0 = 10000%Z)
  /\ walletLinkContract ca0 <> None
  /\ history freshState = [].
Proof.
  apply (proj1 (NewChainAuth_result (blockchain ca0) exampleEvaluator
                  (Ok exampleSpaceContract) (Ok {| walletLinkAddress := addr 1 |})
                  (Ok (emptyCache _)) (Ok (emptyCache _)) (Ok (emptyCache _))
                  (Ok (emptyCache _)) (-3) 0 1000) ca0 freshState).
  reflexivity.
Defined.

Lemma VerifyReceipt_field_lengths_witness :
  List.length (protocol.To (exampleReceipt 10)) = 20.
Proof.
  assert (H : VerifyReceipt ca0 (exampleReceipt 10) = Returns (Ok true))
    by (vm_compute; reflexivity).
  apply (proj1 (VerifyReceipt_field_lengths ca0 (exampleReceipt 10) H)).
Defined.

Lemma VerifyReceipt_collaborator_errors_witness :
  denied offlineChainAuth (exampleReceipt 10) "Failed to get latest block number: %v".
Proof.
  apply (proj2 (proj2 (VerifyReceipt_collaborator_errors offlineChainAuth
                         (exampleReceipt 10) (External "connection refused")))).
  - exists exampleClient,
      {| ethTypes.BlockNumber := 10; ethTypes.Logs := [exampleLog] |},
      {| ethTypes.To := Some bob; ethTypes.ChainId := 1; ethTypes.Sender := Ok alice |},
      bob, alice.
    repeat split; try reflexivity.
    constructor; [repeat split; reflexivity | constructor].
  - reflexivity.
Defined.

Lemma VerifyReceipt_hash_suffix_witness :
  VerifyReceipt ca0 (withTransactionHash hashedReceipt ([x00; x01] ++ repeat x42 32))
  = VerifyReceipt ca0 hashedReceipt.
Proof.
  apply (VerifyReceipt_hash_suffix ca0 hashedReceipt [x00; x01]).
  reflexivity.
Defined.

Lemma checkStreamIsEnabled_channel_witness :
  appended freshState
    (snd (checkStreamIsEnabled ca0
            (request chainAuthKindChannel townSquare lobby alice PermissionWrite) freshState))
    [CallIsChannelDisabled townSquare lobby; Inc isChannelEnabledCacheMiss].
Proof.
  assert (Hk : kind (request chainAuthKindChannel townSquare lobby alice PermissionWrite)
               = chainAuthKindChannel) by reflexivity.
  assert (L : lookupFresh (entitlementCache freshState) (now freshState)
                (newArgsForEnabledChannel townSquare lobby) = None) by reflexivity.
  destruct (checkStreamIsEnabled_channel ca0
              (request chainAuthKindChannel townSquare lobby alice PermissionWrite)
              freshState Hk) as (_ & H & _).
  apply (proj1 (H L) false). reflexivity.
Defined.

Lemma NewChainAuthArgs_principal_witness :
  principal (NewChainAuthArgsForChannel townSquare lobby
               "0x00000000000000000000000000000000000000a1" PermissionRead)
  = alice.
Proof.
  apply (proj1 (proj2 (NewChainAuthArgs_principal alice townSquare lobby PermissionRead
                         "0x00000000000000000000000000000000000000a1"
                         (or_intror (or_introl eq_refl))))).
Defined.

(** C9. A caller can upload the receipt of a contract creation: the chain
    transaction then has no to address, the uploaded to field (here the 20
    bytes of an address) differs from it, and [VerifyReceipt], instead of
    returning (false, PERMISSION_DENIED) for the mismatched to, panics on
    [tx.To()[:]]: every earlier comparison succeeds and the transaction is
    not pending. *)
Theorem VerifyReceipt_contract_creation_panics :
  GetClient (evaluator creationChainAuth) (protocol.ChainId (exampleReceipt 10))
  = Ok creationClient
  /\ TransactionByHash creationClient
       (BytesToHash (protocol.TransactionHash (exampleReceipt 10)))
     = Ok (creationTransaction, false)
  /\ ethTypes.To creationTransaction = None
  /\ protocol.To (exampleReceipt 10) = fixedBytes bob
  /\ VerifyReceipt creationChainAuth (exampleReceipt 10) = Panics.
Proof.
  repeat split.
Qed.

End Runs.
